(** * AWS-SageMaker-Workshop: the batched inference client and the
      selection of the best trial

    The repository holds two notebooks.  The churn notebook defines one
    function of its own,

<<
      def predict(data, rows=500):
          split_array = np.array_split(data, int(data.shape[0] / float(rows) + 1))
          predictions = ''
          for array in split_array:
              predictions = ','.join([predictions, xgb_predictor.predict(array).decode('utf-8')])

          return np.fromstring(predictions[1:], sep=',')
>>

    and then tabulates [np.where(predictions > THRESHOLD, 1, 0)] against the
    true labels with [pd.crosstab].  The experiments notebook asks the
    platform for the trial components sorted by a metric, takes row 0 of the
    answer and loads the component of that name.

    The development below embeds these pieces.  The library functions the
    notebooks call (numpy's [array_split], [fromstring] and [where], pandas'
    [crosstab], Python's [float], [int], [str.join] and slicing, the SDK's
    [csv_serializer]) are written out after their implementation, in the
    modules [Python], [Numpy] and [Pandas] and in [Churn]; the notebook
    code is in [Churn] and [Experiments].  The endpoint and the platform's
    search are outside the repository: the endpoint is an arbitrary
    function of the state of the world, and the search is known by its
    contract.  The facts follow the definitions: [FloatFacts] (the chunk
    count in binary64), [SplitFacts] (the split step), [RunFacts] (the
    calls of a run, for any predictor), [ClientFacts] (the requests that
    reach the endpoint through the predictor of the notebook),
    [ScoreFacts] (the scores returned),
    [TabulationFacts] (labels and confusion matrix) and [ExperimentFacts]
    (the best trial).  [Sweep] holds the loop of the experiments notebook
    over the numbers of hidden channels; [SplitShape], [MoreRunFacts],
    [MoreTabulationFacts], [MoreExperimentFacts] and [SweepFacts] add
    further facts on edge cases, failures and how the pieces compose.

    Conventions.
    - A feature matrix is the list of its rows; [data.shape[0]] is its length.
    - Python exceptions are values of [exn]; a computation that may raise
      returns a [result].
    - The chunk count [int(data.shape[0] / float(rows) + 1)] is computed
      in binary64, on [spec_float]: conversion, division and addition round
      to nearest, ties to even, and [float] raises [OverflowError] on an
      integer that is out of range.  Scores are only compared with the
      threshold; they are binary64 numbers of [PrimFloat].
    - The churn notebook uses [np] without importing numpy; it is read as
      numpy throughout. *)

From Stdlib Require Import List ZArith QArith Lia String Ascii Bool.
From Stdlib Require Import Floats Permutation Sorted.
From Stdlib Require Import DecimalString DecimalZ.
Import ListNotations.

Close Scope Q_scope.
Local Open Scope nat_scope.

(* ================================================================== *)
(** * Python values: exceptions, results, strings *)
(* ================================================================== *)

Module Python.

(** The exceptions the modelled code can raise.  [ResourceNotFound] is the
    platform's answer to an unknown name, [Remote e] is whatever the call
    [xgb_predictor.predict] raised. *)
Inductive exn (E : Type) : Type :=
| ZeroDivisionError
| OverflowError
| ValueError
| IndexError
| ResourceNotFound
| Remote (e : E).

Arguments ZeroDivisionError {E}.
Arguments OverflowError {E}.
Arguments ValueError {E}.
Arguments IndexError {E}.
Arguments ResourceNotFound {E}.
Arguments Remote {E} e.

Inductive result (E A : Type) : Type :=
| Ok (a : A)
| Raise (e : exn E).

Arguments Ok {E A} a.
Arguments Raise {E A} e.

Definition is_ok {E A} (r : result E A) : bool :=
  match r with Ok _ => true | Raise _ => false end.

(** [sep.join(l)] *)
Fixpoint join (sep : string) (l : list string) : string :=
  match l with
  | [] => EmptyString
  | [x] => x
  | x :: rest => (x ++ sep ++ join sep rest)%string
  end.

(** [s[1:]] *)
Definition tail_from_1 (s : string) : string :=
  match s with
  | EmptyString => EmptyString
  | String _ t => t
  end.

(** [l[st:en]] for [0 <= st], on a list *)
Definition slice {A} (l : list A) (st en : nat) : list A :=
  firstn (en - st) (skipn st l).

(** ** Floats

    A Python float is a binary64 number.  [spec_float] is the
    specification of IEEE 754 arithmetic of the standard library
    ([prec = 53], [emax = 1024]): the operations round to nearest, ties to
    even.

    [float(z)] on an integer (CPython, [PyLong_AsDouble]): the nearest
    binary64 number, and [OverflowError] ("int too large to convert to
    float") when that is not finite.  The same conversion is applied to an
    integer operand of a float operation. *)
Definition float_of_int {E} (z : Z) : result E spec_float :=
  match binary_normalize prec emax z 0 false with
  | S754_infinity _ => Raise OverflowError
  | x => Ok x
  end.

(** [a / b] on floats (CPython, [float_div]): [ZeroDivisionError] when
    [b == 0.0], else the rounded quotient. *)
Definition float_truediv {E} (a b : spec_float) : result E spec_float :=
  if SFeqb b (S754_zero false) then Raise ZeroDivisionError
  else Ok (SFdiv prec emax a b).

(** [a + z] for a float [a] and an integer [z]: [z] is converted, then
    the sum is rounded. *)
Definition float_add_int {E} (a : spec_float) (z : Z) : result E spec_float :=
  match float_of_int z with
  | Raise e => Raise e
  | Ok b => Ok (SFadd prec emax a b)
  end.

(** [int(x)] on a float: truncation toward zero; [OverflowError] on an
    infinity and [ValueError] on not-a-number. *)
Definition int_of_float {E} (x : spec_float) : result E Z :=
  match x with
  | S754_zero _ => Ok 0%Z
  | S754_finite s m e => Ok (cond_Zopp s (Z.shiftl (Zpos m) e))
  | S754_infinity _ => Raise OverflowError
  | S754_nan => Raise ValueError
  end.

(** Whether rounding a shifted mantissa has lost a bit that was set: the
    round bit or the sticky bit of the shift record. *)
Definition lost (mrs : shr_record) : bool := shr_r mrs || shr_s mrs.

(** [divmod(a, b)] on naturals *)
Definition divmod (a b : nat) : nat * nat := (a / b, a mod b).

End Python.

(* ================================================================== *)
(** * numpy *)
(* ================================================================== *)

Module Numpy.
Import Python.

(** [cumsum]: running sums. *)
Fixpoint cumsum_from (acc : nat) (l : list nat) : list nat :=
  match l with
  | [] => []
  | x :: t => (acc + x) :: cumsum_from (acc + x) t
  end.

Definition cumsum (l : list nat) : list nat := cumsum_from 0 l.

(** [np.array_split(ary, Nsections)] along axis 0, for a scalar second
    argument (numpy/lib/shape_base.py):
<<
      Nsections = int(indices_or_sections)
      if Nsections <= 0:
          raise ValueError('number sections must be larger than 0.')
      Neach_section, extras = divmod(Ntotal, Nsections)
      section_sizes = ([0] + extras * [Neach_section+1] +
                       (Nsections-extras) * [Neach_section])
      div_points = _nx.array(section_sizes, dtype=_nx.intp).cumsum()
      sub_arys = []
      for i in range(Nsections):
          st = div_points[i]
          end = div_points[i + 1]
          sub_arys.append(sary[st:end])
      return sub_arys
>> *)
Definition array_split {E A} (ary : list A) (indices_or_sections : Z)
  : result E (list (list A)) :=
  let Ntotal := List.length ary in
  if (indices_or_sections <=? 0)%Z then Raise ValueError
  else
    let Nsections := Z.to_nat indices_or_sections in
    let '(Neach_section, extras) := divmod Ntotal Nsections in
    let section_sizes :=
      [0] ++ repeat (Neach_section + 1) extras
          ++ repeat Neach_section (Nsections - extras) in
    let div_points := cumsum section_sizes in
    Ok (map (fun i => slice ary (nth i div_points 0) (nth (i + 1) div_points 0))
            (seq 0 Nsections)).

(** The same sub-arrays cut one after the other: the first [s] rows for
    each size [s] in turn.  [array_split] is compared with it below. *)
Fixpoint chunks_by {A} (sizes : list nat) (l : list A) : list (list A) :=
  match sizes with
  | [] => []
  | s :: sizes' => firstn s l :: chunks_by sizes' (skipn s l)
  end.

(** [np.where(cond, x, y)] with scalar [x] and [y]: an element-wise choice. *)
Definition np_where {A} (cond : list bool) (x y : A) : list A :=
  map (fun b : bool => if b then x else y) cond.

(** [arr > t] for an array and a scalar, on binary64 numbers. *)
Definition gt (arr : list float) (t : float) : list bool :=
  map (fun s => PrimFloat.ltb t s) arr.

(** ** [np.fromstring(text, sep=c)] in text mode

    numpy/core/src/multiarray/ctors.c, [array_from_text]: read an item, skip
    a separator, and so on until either fails.  The separator [sep] is one
    character that is not white space; numpy then also skips white space
    before it.

    The item reader is the dtype's [fromstr] (C [strtod] for float64): it
    reads a number at the head of the text and returns it with the unread
    rest, or reads nothing.  It is a parameter here. *)

Definition isspace (c : ascii) : bool :=
  let n := nat_of_ascii c in
  (n =? 32) || ((9 <=? n) && (n <=? 13)).

Fixpoint skip_spaces (s : string) : string :=
  match s with
  | String c t => if isspace c then skip_spaces t else s
  | EmptyString => s
  end.

(** [fromstr_skip_separator]: [None] when the text is exhausted (before
    the separator or right after it) or when something else than the
    separator follows; else the text after the separator. *)
Definition skip_separator (sep : ascii) (s : string) : option string :=
  match skip_spaces s with
  | EmptyString => None
  | String c t =>
      if Ascii.eqb c sep
      then match t with EmptyString => None | _ => Some t end
      else None
  end.

Section FromString.
Context {Score : Type}.
Variable fromstr : string -> option (Score * string).

Fixpoint array_from_text (fuel : nat) (sep : ascii) (s : string) : list Score :=
  match fuel with
  | 0 => []
  | S fuel' =>
      match fromstr s with
      | None => []
      | Some (x, rest) =>
          x :: match skip_separator sep rest with
               | None => []
               | Some rest' => array_from_text fuel' sep rest'
               end
      end
  end.

(** Every round consumes the separator, so the length of the text plus
    one bounds the number of rounds. *)
Definition fromstring (s : string) (sep : ascii) : list Score :=
  array_from_text (S (String.length s)) sep s.
End FromString.

End Numpy.

(* ================================================================== *)
(** * pandas *)
(* ================================================================== *)

Module Pandas.
Import Python.

(** The sorted distinct values of a column: the labels of a tabulation. *)
Fixpoint insert_key (x : Z) (l : list Z) : list Z :=
  match l with
  | [] => [x]
  | y :: t =>
      if (x <? y)%Z then x :: l
      else if (x =? y)%Z then l
      else y :: insert_key x t
  end.

Definition unique_sorted (l : list Z) : list Z := fold_right insert_key [] l.

(** A table of counts: row labels, column labels and one list of cells
    per row label. *)
Record DataFrame : Type := mkDataFrame {
  index_labels : list Z;
  column_labels : list Z;
  cells : list (list nat)
}.

(** The number of positions that hold [r] in the first column and [c] in
    the second. *)
Definition count_pairs (r c : Z) (pairs : list (Z * Z)) : nat :=
  List.length (filter (fun p => (fst p =? r)%Z && (snd p =? c)%Z) pairs).

(** [pd.notna]: whether a value of the first column is there. *)
Definition notna (x : option Z) : bool :=
  match x with
  | Some _ => true
  | None => false
  end.

(** Equality of two values of the first column is decidable. *)
Definition label_eq_dec (x y : option Z) : {x = y} + {x <> y} :=
  match x, y with
  | Some a, Some b =>
      match Z.eq_dec a b with
      | left H => left (f_equal Some H)
      | right H => right (fun H' : Some a = Some b =>
                            H (f_equal (fun o => match o with
                                                 | Some v => v
                                                 | None => a
                                                 end) H'))
      end
  | None, None => left eq_refl
  | Some a, None => right (fun H : Some a = None =>
                             eq_ind (Some a)
                                    (fun o => match o with
                                              | Some _ => True
                                              | None => False
                                              end) I None H)
  | None, Some b => right (fun H : None = Some b =>
                             eq_ind None
                                    (fun o => match o with
                                              | Some _ => False
                                              | None => True
                                              end) I (Some b) H)
  end.

(** The positions that take part in a tabulation: pandas groups by the
    two keys and leaves out a position whose key is missing ([NaN]).  A
    missing value of the first column is [None]. *)
Fixpoint dropna (index : list (option Z)) (columns : list Z) : list (Z * Z) :=
  match index, columns with
  | Some r :: index', c :: columns' => (r, c) :: dropna index' columns'
  | None :: index', _ :: columns' => dropna index' columns'
  | _, _ => []
  end.

(** [pd.crosstab(index=..., columns=...)] on a column of integers, some
    of which may be missing, and an array of integers: the positions with
    a missing key are left out; the cell for [(r, c)] counts the remaining
    positions where the first column holds [r] and the second holds [c];
    the labels are the sorted distinct values that remain in each column.
    Columns of different lengths are refused. *)
Definition crosstab {E} (index : list (option Z)) (columns : list Z)
  : result E DataFrame :=
  if List.length index =? List.length columns then
    let pairs := dropna index columns in
    let rs := unique_sorted (map fst pairs) in
    let cs := unique_sorted (map snd pairs) in
    Ok (mkDataFrame rs cs
          (map (fun r => map (fun c => count_pairs r c pairs) cs) rs))
  else Raise ValueError.

(** The sum of all cells. *)
Definition total (df : DataFrame) : nat := list_sum (map list_sum (cells df)).

End Pandas.

(* ================================================================== *)
(** * The churn notebook *)
(* ================================================================== *)

Module Churn.
Import Python Numpy.

(** [int(n / float(rows) + 1)] for the row count [n = data.shape[0]].
    Python evaluates [float(rows)] first; the division then converts [n],
    tests the divisor for zero and divides; the addition converts [1] and
    adds; [int] truncates. *)
Definition section_count {E} (n rows : Z) : result E Z :=
  match float_of_int rows with
  | Raise e => Raise e
  | Ok y =>
      match float_of_int n with
      | Raise e => Raise e
      | Ok x =>
          match float_truediv x y with
          | Raise e => Raise e
          | Ok q =>
              match float_add_int q 1 with
              | Raise e => Raise e
              | Ok s => int_of_float s
              end
          end
      end
  end.

(** ** The predictor of the notebook

    [xgb_predictor.serializer = csv_serializer]: a call
    [xgb_predictor.predict(array)] first serializes the array and then
    posts the text to the endpoint.  [csv_serializer] (sagemaker SDK,
    [_CsvSerializer._serialize_row]) refuses an array without rows with
    [ValueError('Cannot serialize empty array')], before anything is
    posted.  What the predictor raises is either that or what the endpoint
    raised. *)
Inductive client_error (E : Type) : Type :=
| CannotSerializeEmptyArray
| EndpointError (e : E).

Arguments CannotSerializeEmptyArray {E}.
Arguments EndpointError {E} e.

(** The predictor over an endpoint.  Its state is the state of the
    endpoint together with the list of the arrays posted to it so far. *)
Definition csv_client {Row World E}
           (endpoint : World -> list Row -> World * (E + string))
           (w : World * list (list Row)) (array : list Row)
  : (World * list (list Row)) * (client_error E + string) :=
  match array with
  | [] => (w, inl CannotSerializeEmptyArray)
  | _ :: _ =>
      match endpoint (fst w) array with
      | (w', inr body) => ((w', snd w ++ [array]), inr body)
      | (w', inl e) => ((w', snd w ++ [array]), inl (EndpointError e))
      end
  end.

(** The arrays posted to the endpoint so far. *)
Definition posted {Row World} (w : World * list (list Row)) : list (list Row) :=
  snd w.

(** Whether an array has rows. *)
Definition has_rows {Row} (array : list Row) : bool :=
  match array with
  | [] => false
  | _ :: _ => true
  end.

Section Predict.
Context {Row Score World E : Type}.

(** [xgb_predictor.predict(array).decode('utf-8')]: from the state of the
    outside world and the chunk, the call gives the next state and either
    the reply text or the exception raised.  The facts that hold for every
    predictor are stated for an arbitrary [invoke]; the predictor of the
    notebook is [csv_client endpoint]. *)
Variable invoke : World -> list Row -> World * (E + string).

(** The item reader of [np.fromstring]. *)
Variable fromstr : string -> option (Score * string).

(** What an observer of the calls to the predictor sees: the array it is
    called with, and the reply or the exception that comes back. *)
Inductive event : Type :=
| Request (array : list Row)
| Response (body : string)
| Fault (e : E).

Record state : Type := mkState { world : World; trace : list event }.

(** Computations that may raise and that talk to the endpoint. *)
Definition M (A : Type) : Type := state -> result E A * state.

Definition ret {A} (a : A) : M A := fun st => (Ok a, st).

Definition bind {A B} (c : M A) (k : A -> M B) : M B :=
  fun st =>
    match c st with
    | (Ok a, st') => k a st'
    | (Raise e, st') => (Raise e, st')
    end.

Definition lift {A} (r : result E A) : M A := fun st => (r, st).

Notation "x <- c ;; k" := (bind c (fun x => k))
  (at level 61, c at next level, right associativity).

Definition xgb_predictor_predict (array : list Row) : M string :=
  fun st =>
    match invoke (world st) array with
    | (w, inr body) =>
        (Ok body, mkState w (trace st ++ [Request array; Response body]))
    | (w, inl e) =>
        (Raise (Remote e), mkState w (trace st ++ [Request array; Fault e]))
    end.

(** [int(data.shape[0] / float(rows) + 1)] *)
Definition n_sections (data : list Row) (rows : Z) : result E Z :=
  section_count (Z.of_nat (List.length data)) rows.

(** [split_array = np.array_split(data, int(data.shape[0] / float(rows) + 1))] *)
Definition split_step (data : list Row) (rows : Z) : result E (list (list Row)) :=
  match n_sections data rows with
  | Raise e => Raise e
  | Ok k => array_split data k
  end.

(** The section sizes [array_split] works out for [n] rows and the count
    [n / rows + 1]. *)
Definition sizes_of (n : nat) (rows : Z) : list nat :=
  let k := Z.to_nat (Z.of_nat n / rows + 1) in
  repeat (n / k + 1) (n mod k) ++ repeat (n / k) (k - n mod k).

(** The body of the loop:
    [predictions = ','.join([predictions, <reply>])] *)
Definition loop_body (predictions : string) (array : list Row) : M string :=
  body <- xgb_predictor_predict array ;;
  ret (join "," [predictions; body]).

(** [for array in split_array: ...] *)
Fixpoint for_loop (split_array : list (list Row)) (predictions : string) : M string :=
  match split_array with
  | [] => ret predictions
  | array :: rest =>
      predictions' <- loop_body predictions array ;;
      for_loop rest predictions'
  end.

(** [return np.fromstring(predictions[1:], sep=',')] *)
Definition finish (predictions : string) : M (list Score) :=
  ret (fromstring fromstr (tail_from_1 predictions) ",").

Definition predict (data : list Row) (rows : Z) : M (list Score) :=
  split_array <- lift (split_step data rows) ;;
  predictions <- for_loop split_array EmptyString ;;
  finish predictions.

(** The requests in a trace, in the order they were issued. *)
Fixpoint requests (t : list event) : list (list Row) :=
  match t with
  | [] => []
  | Request a :: t' => a :: requests t'
  | _ :: t' => requests t'
  end.

(** A trace is sequential when requests and their outcomes alternate: a
    request is only issued when none is outstanding, and an outcome only
    arrives for the outstanding request.  [waiting] tells whether a request
    is outstanding. *)
Fixpoint sequential (waiting : bool) (t : list event) : bool :=
  match t with
  | [] => negb waiting
  | Request _ :: t' => negb waiting && sequential true t'
  | Response _ :: t' => waiting && sequential false t'
  | Fault _ :: t' => waiting && sequential false t'
  end.

(** The number of requests in a trace that have no outcome yet. *)
Fixpoint outstanding (t : list event) : Z :=
  match t with
  | [] => 0
  | Request _ :: t' => 1 + outstanding t'
  | Response _ :: t' => -1 + outstanding t'
  | Fault _ :: t' => -1 + outstanding t'
  end.

(** The trace of successful exchanges for the chunks [cs] with the
    replies [bodies]. *)
Fixpoint exchanges (cs : list (list Row)) (bodies : list string) : list event :=
  match cs, bodies with
  | c :: cs', b :: bodies' => Request c :: Response b :: exchanges cs' bodies'
  | _, _ => []
  end.

(** The value of [predictions] after the replies [bodies] were joined to
    [acc] one by one. *)
Fixpoint accumulated (acc : string) (bodies : list string) : string :=
  match bodies with
  | [] => acc
  | b :: bodies' => accumulated (join "," [acc; b]) bodies'
  end.

(** The configurations at the head of the loop that a run from
    [(chunks0, '', st0)] goes through: the chunks still to do, the value of
    [predictions] and the state. *)
Inductive loop_head (chunks0 : list (list Row)) (st0 : state)
  : list (list Row) -> string -> state -> Prop :=
| head_init : loop_head chunks0 st0 chunks0 EmptyString st0
| head_next : forall c rest acc st body st',
    loop_head chunks0 st0 (c :: rest) acc st ->
    xgb_predictor_predict c st = (Ok body, st') ->
    loop_head chunks0 st0 rest (join "," [acc; body]) st'.

(** A reply that carries the given scores, one after the other, as
    comma-separated text; [show] writes one score. *)
Definition csv (show : Score -> string) (scores : list Score) : string :=
  join "," (map show scores).

End Predict.

(** [THRESHOLD = 0.3]: the binary64 number nearest to 0.3. *)
Definition THRESHOLD : float := 0x1.3333333333333p-2%float.

(** [np.where(predictions > THRESHOLD, 1, 0)] *)
Definition predicted_labels (predictions : list float) : list Z :=
  np_where (gt predictions THRESHOLD) 1%Z 0%Z.

(** [pd.crosstab(index=test_df.iloc[:, 0],
                 columns=np.where(predictions > THRESHOLD, 1, 0))];
    the first column of the test table, read from [test.csv], holds the
    true labels: integers, and [None] where the cell is blank. *)
Definition confusion_matrix {E} (labels : list (option Z))
           (predictions : list float)
  : result E Pandas.DataFrame :=
  Pandas.crosstab labels (predicted_labels predictions).

End Churn.

(* ================================================================== *)
(** * The experiments notebook *)
(* ================================================================== *)

Module Experiments.
Import Python.

(** A trial component as the analytics table shows it: its name and the
    value of [test:accuracy - Max]. *)
Record TrialComponent : Type := mkTrialComponent {
  TrialComponentName : string;
  test_accuracy_max : Q
}.

(** [sort_order="Descending"] on [sort_by="metrics.test:accuracy.max"]. *)
Definition ge_metric (a b : TrialComponent) : Prop :=
  Qle (test_accuracy_max b) (test_accuracy_max a).

Definition descending (l : list TrialComponent) : Prop := Sorted ge_metric l.

Section Analytics.
Context {E : Type}.

(** The platform's search: it answers with the stored trial components
    in the order asked for.  It is opaque; what is known of it is its
    contract, stated where it is used. *)
Variable search : list TrialComponent -> list TrialComponent.

(** [trial_component_analytics.dataframe()] *)
Definition dataframe (store : list TrialComponent) : list TrialComponent :=
  search store.

(** [df.iloc[i]] *)
Definition iloc {A} (df : list A) (i : nat) : result E A :=
  match nth_error df i with
  | Some x => Ok x
  | None => Raise IndexError
  end.

(** [TrialComponent.load(name)] *)
Definition load (store : list TrialComponent) (name : string)
  : result E TrialComponent :=
  match find (fun t => String.eqb (TrialComponentName t) name) store with
  | Some t => Ok t
  | None => Raise ResourceNotFound
  end.

(** [best_trial_component_name =
       trial_component_analytics.dataframe().iloc[0]['TrialComponentName']
     best_trial_component = TrialComponent.load(best_trial_component_name)] *)
Definition best_trial_component (store : list TrialComponent)
  : result E TrialComponent :=
  match iloc (dataframe store) 0 with
  | Raise e => Raise e
  | Ok row => load store (TrialComponentName row)
  end.

End Analytics.

(** A reference search: insertion sort by the metric, largest first. *)
Fixpoint insert_descending (t : TrialComponent) (l : list TrialComponent)
  : list TrialComponent :=
  match l with
  | [] => [t]
  | u :: rest =>
      if Qle_bool (test_accuracy_max u) (test_accuracy_max t)
      then t :: l
      else u :: insert_descending t rest
  end.

Definition sort_descending (l : list TrialComponent) : list TrialComponent :=
  fold_right insert_descending [] l.

End Experiments.

(* ================================================================== *)
(** * The experiments notebook: the sweep over hidden channels *)
(* ================================================================== *)

Module Sweep.
Import Python.

(** [str(n)] for an integer, as an f-string or [format] writes it. *)
Definition str_int (n : Z) : string := NilZero.string_of_int (Z.to_int n).

(** [f"cnn-training-job-{num_hidden_channel}-hidden-channels-{int(time.time())}"] *)
Definition trial_name_of (num_hidden_channel now : Z) : string :=
  ("cnn-training-job-" ++ str_int num_hidden_channel
   ++ "-hidden-channels-" ++ str_int now)%string.

(** ["cnn-training-job-{}".format(int(time.time()))] *)
Definition job_name_of (now : Z) : string :=
  ("cnn-training-job-" ++ str_int now)%string.

(** A dict with integer keys, in insertion order.  [d[k] = v] replaces
    the value of a key that is present and adds the key at the end
    otherwise. *)
Fixpoint dict_set (k : Z) (v : string) (d : list (Z * string))
  : list (Z * string) :=
  match d with
  | [] => [(k, v)]
  | (k', v') :: d' =>
      if (k =? k')%Z then (k, v) :: d' else (k', v') :: dict_set k v d'
  end.

(** [d[k]], [None] standing for [KeyError]. *)
Fixpoint dict_get (k : Z) (d : list (Z * string)) : option string :=
  match d with
  | [] => None
  | (k', v') :: d' => if (k =? k')%Z then Some v' else dict_get k d'
  end.

(** The calls to the platform that the loop makes:
    [Trial.create(trial_name=...)],
    [cnn_trial.add_trial_component(preprocessing_trial_component)] and
    [estimator.fit(job_name=..., experiment_config={"TrialName": ...})] for
    an estimator with the given [hidden_channels]. *)
Inductive call : Type :=
| TrialCreate (trial_name : string)
| AddTrialComponent (trial_name : string)
| Fit (job_name trial_name : string) (hidden_channels : Z).

Section Loop.
Context {World E : Type}.

(** The platform is opaque: a call changes the world and returns or
    raises.  So are the clock, read as [int(time.time())], and
    [time.sleep]; neither raises. *)
Variable sagemaker : World -> call -> World * (E + unit).
Variable time_time : World -> World * Z.
Variable time_sleep : World -> Z -> World.

(** The world, the calls made so far and the notebook's
    [hidden_channel_trial_name_map]. *)
Record state : Type := mkState {
  world : World;
  calls : list call;
  hidden_channel_trial_name_map : list (Z * string)
}.

Definition M (A : Type) : Type := state -> result E A * state.

Definition ret {A} (a : A) : M A := fun st => (Ok a, st).

Definition bind {A B} (c : M A) (k : A -> M B) : M B :=
  fun st =>
    match c st with
    | (Ok a, st') => k a st'
    | (Raise e, st') => (Raise e, st')
    end.

Notation "x <- c ;; k" := (bind c (fun x => k))
  (at level 61, c at next level, right associativity).

Definition api (c : call) : M unit :=
  fun st =>
    match sagemaker (world st) c with
    | (w, inr _) =>
        (Ok tt, mkState w (calls st ++ [c]) (hidden_channel_trial_name_map st))
    | (w, inl e) =>
        (Raise (Remote e),
         mkState w (calls st ++ [c]) (hidden_channel_trial_name_map st))
    end.

Definition now : M Z :=
  fun st =>
    let (w, t) := time_time (world st) in
    (Ok t, mkState w (calls st) (hidden_channel_trial_name_map st)).

Definition sleep (secs : Z) : M unit :=
  fun st =>
    (Ok tt, mkState (time_sleep (world st) secs) (calls st)
                    (hidden_channel_trial_name_map st)).

(** [hidden_channel_trial_name_map[k] = v] *)
Definition assign (k : Z) (v : string) : M unit :=
  fun st =>
    (Ok tt, mkState (world st) (calls st)
                    (dict_set k v (hidden_channel_trial_name_map st))).

(** The body of the loop. *)
Definition iteration (num_hidden_channel : Z) : M unit :=
  t <- now ;;
  let trial_name := trial_name_of num_hidden_channel t in
  _ <- api (TrialCreate trial_name) ;;
  _ <- assign num_hidden_channel trial_name ;;
  _ <- api (AddTrialComponent trial_name) ;;
  t' <- now ;;
  let cnn_training_job_name := job_name_of t' in
  _ <- api (Fit cnn_training_job_name trial_name num_hidden_channel) ;;
  sleep 2.

(** [for i, num_hidden_channel in enumerate(channels): ...]; the notebook
    runs it on [[2, 5, 10]]. *)
Fixpoint sweep (channels : list Z) : M unit :=
  match channels with
  | [] => ret tt
  | num_hidden_channel :: rest =>
      _ <- iteration num_hidden_channel ;;
      sweep rest
  end.

End Loop.

(** A platform that takes every call, and one that refuses to train;
    a clock that ticks a second at every reading. *)
Definition willing (w : Z) (c : call) : Z * (string + unit) := (w, inr tt).

Definition no_training (w : Z) (c : call) : Z * (string + unit) :=
  match c with
  | Fit _ _ _ => (w, inl "ResourceLimitExceeded"%string)
  | _ => (w, inr tt)
  end.

Definition ticking (w : Z) : Z * Z := ((w + 1)%Z, w).

Definition sleeping (w : Z) (secs : Z) : Z := (w + secs)%Z.

End Sweep.

(* ================================================================== *)
(** * Concrete endpoints and readers for the examples *)
(* ================================================================== *)

Module Examples.
Import Python Numpy Churn.

(** Rows are numbers and the score of a row is one bit, written [0] or
    [1]. *)
Definition show_bit (b : bool) : string := if b then "1" else "0".

(** An item reader for such scores: white space, then one digit [0] or
    [1]. *)
Definition read_bit (s : string) : option (bool * string) :=
  match skip_spaces s with
  | String "0" rest => Some (false, rest)
  | String "1" rest => Some (true, rest)
  | _ => None
  end.

(** An endpoint that scores every row it is sent, in order. *)
Definition scoring_endpoint (w : unit) (chunk : list nat)
  : unit * (string + string) :=
  (w, inr (csv show_bit (map Nat.odd chunk))).

(** An endpoint that answers two scores whatever it is sent. *)
Definition chatty_endpoint (w : unit) (chunk : list nat)
  : unit * (string + string) :=
  (w, inr "1,1"%string).

(** An endpoint that is down. *)
Definition failing_endpoint (w : unit) (chunk : list nat)
  : unit * (string + string) :=
  (w, inl "503"%string).

(** An endpoint that counts the calls and fails the second one. *)
Definition flaky_endpoint (calls : nat) (chunk : list nat)
  : nat * (string + string) :=
  if calls =? 1 then (S calls, inl "503"%string)
  else (S calls, inr (csv show_bit (map Nat.odd chunk))).

Definition idle {World E : Type} (w : World) : state (Row:=nat) (E:=E) :=
  mkState w [].

End Examples.

(* ================================================================== *)
(** * Facts about the library functions *)
(* ================================================================== *)

Module NumpyFacts.
Import Python Numpy.

Section Split.
Context {A : Type}.

Lemma slices_chunks_by (l : list A) (sizes : list nat) (acc : nat) :
  map (fun i => slice l (nth i (acc :: cumsum_from acc sizes) 0)
                        (nth (i + 1) (acc :: cumsum_from acc sizes) 0))
      (seq 0 (List.length sizes))
  = chunks_by sizes (skipn acc l).
Proof.
  revert acc. induction sizes as [|s sizes IH]; intros acc; [reflexivity|].
  cbn [List.length seq map chunks_by cumsum_from].
  f_equal.
  - unfold slice. cbn [nth Nat.add]. f_equal. lia.
  - rewrite <- seq_shift, map_map.
    rewrite skipn_skipn, (Nat.add_comm s acc), <- IH.
    apply map_ext. intros i. reflexivity.
Qed.

Lemma concat_chunks_by (sizes : list nat) (l : list A) :
  List.concat (chunks_by sizes l) = firstn (list_sum sizes) l.
Proof.
  revert l. induction sizes as [|s sizes IH]; intros l; [reflexivity|].
  cbn [chunks_by List.concat]. rewrite IH.
  change (list_sum (s :: sizes)) with (s + list_sum sizes).
  rewrite <- (firstn_skipn s l) at 3.
  rewrite firstn_app, firstn_firstn, length_firstn.
  destruct (Nat.le_gt_cases s (List.length l)) as [Hle|Hgt].
  - rewrite (Nat.min_r (s + list_sum sizes) s) by lia.
    rewrite (Nat.min_l s (List.length l)) by lia.
    f_equal. f_equal. lia.
  - rewrite (Nat.min_r (s + list_sum sizes) s) by lia.
    rewrite skipn_all2 by lia. rewrite !firstn_nil, app_nil_r.
    reflexivity.
Qed.

Lemma length_chunks_by (sizes : list nat) (l : list A) :
  list_sum sizes <= List.length l ->
  map (@List.length A) (chunks_by sizes l) = sizes.
Proof.
  revert l. induction sizes as [|s sizes IH]; intros l Hsum; [reflexivity|].
  change (list_sum (s :: sizes)) with (s + list_sum sizes) in Hsum.
  cbn [chunks_by map]. f_equal.
  - rewrite length_firstn. lia.
  - apply IH. rewrite length_skipn. lia.
Qed.

Lemma list_sum_repeat (x n : nat) : list_sum (repeat x n) = n * x.
Proof.
  induction n as [|n IH]; [reflexivity|].
  change (list_sum (repeat x (S n))) with (x + list_sum (repeat x n)).
  rewrite IH. reflexivity.
Qed.

(** The section sizes of [array_split]. *)
Lemma section_sizes_sum (n k : nat) :
  0 < k ->
  list_sum (repeat (n / k + 1) (n mod k) ++ repeat (n / k) (k - n mod k)) = n.
Proof.
  intros Hk. rewrite list_sum_app, !list_sum_repeat.
  pose proof (Nat.mod_upper_bound n k ltac:(lia)) as Hm.
  pose proof (Nat.div_mod_eq n k) as Hd. nia.
Qed.

Lemma section_sizes_length (n k : nat) :
  0 < k ->
  List.length (repeat (n / k + 1) (n mod k) ++ repeat (n / k) (k - n mod k)) = k.
Proof.
  intros Hk. rewrite length_app, !repeat_length.
  pose proof (Nat.mod_upper_bound n k ltac:(lia)). lia.
Qed.

Lemma array_split_chunks {E} (ary : list A) (k : Z) :
  (0 < k)%Z ->
  @array_split E A ary k
  = Ok (chunks_by (repeat (List.length ary / Z.to_nat k + 1)
                          (List.length ary mod Z.to_nat k)
                   ++ repeat (List.length ary / Z.to_nat k)
                             (Z.to_nat k - List.length ary mod Z.to_nat k))
                  ary).
Proof.
  intros Hk. unfold array_split, divmod.
  destruct (Z.leb_spec k 0) as [Hle|_]; [lia|].
  f_equal.
  set (sizes := repeat _ _ ++ repeat _ _).
  assert (Hlen : List.length sizes = Z.to_nat k)
    by (apply section_sizes_length; lia).
  rewrite <- Hlen at 1.
  change (cumsum ([0] ++ sizes)) with (0 :: cumsum_from 0 sizes).
  rewrite slices_chunks_by. reflexivity.
Qed.

Lemma array_split_nonpositive {E} (ary : list A) (k : Z) :
  (k <= 0)%Z -> @array_split E A ary k = Raise ValueError.
Proof.
  intros Hk. unfold array_split.
  destruct (Z.leb_spec k 0); [reflexivity | lia].
Qed.

End Split.

End NumpyFacts.

(* ================================================================== *)
(** * The chunk count in binary64 *)
(* ================================================================== *)

(** The chunk count is the integer quotient plus one as long as the row
    count and the bound are below 2^25; it is not for larger numbers (see
    [SplitFacts]).  The proof follows the rounding of [spec_float]: a
    mantissa is shifted right, at most one unit is added, and nothing is
    added when no bit was lost. *)

Module FloatFacts.
Import Python Churn.
Local Open Scope Z_scope.

(** The float operations are written with the integer functions of the
    core library; [zfold] states them with those of [ZArith]. *)
Ltac zfold :=
  change IntDef.Z.max with Z.max in *;
  change IntDef.Z.min with Z.min in *;
  change IntDef.Z.add with Z.add in *;
  change IntDef.Z.sub with Z.sub in *;
  change IntDef.Z.mul with Z.mul in *;
  change IntDef.Z.opp with Z.opp in *;
  change IntDef.Z.leb with Z.leb in *;
  change IntDef.Z.eqb with Z.eqb in *;
  change IntDef.Z.compare with Z.compare in *;
  change IntDef.Z.even with Z.even in *;
  change IntDef.Z.shiftl with Z.shiftl in *;
  change IntDef.Z.div_eucl with Z.div_eucl in *.

Lemma shr_1_m (mrs : shr_record) :
  0 <= shr_m mrs -> shr_m (shr_1 mrs) = shr_m mrs / 2 /\ 0 <= shr_m (shr_1 mrs).
Proof.
  destruct mrs as [m r s]. cbn [shr_m]. intros Hm.
  destruct m as [|p|p]; [ | | lia ].
  - cbn. split; [reflexivity | lia].
  - destruct p as [p|p|]; cbn [shr_1 shr_m].
    + split; [|lia]. rewrite (Pos2Z.inj_xI p).
      apply Z.div_unique with (r := 1); lia.
    + split; [|lia]. rewrite (Pos2Z.inj_xO p).
      apply Z.div_unique with (r := 0); lia.
    + split; [reflexivity | lia].
Qed.

Lemma shr_1_lost (mrs : shr_record) :
  0 <= shr_m mrs -> lost mrs = false -> (2 | shr_m mrs) ->
  lost (shr_1 mrs) = false.
Proof.
  destruct mrs as [m r s]. unfold lost. cbn [shr_m shr_r shr_s].
  intros Hm Hl [k Hk].
  destruct m as [|p|p]; [ | | lia ].
  - cbn. exact Hl.
  - destruct p as [p|p|]; cbn [shr_1 shr_r shr_s]; try lia.
    exact Hl.
Qed.

Lemma divide_pow2_double (p m : Z) :
  0 <= p -> 0 <= m -> (2 ^ (p + p) | m) -> (2 ^ p | m) /\ (2 ^ p | m / 2 ^ p).
Proof.
  intros Hp Hm [k Hk]. rewrite Z.pow_add_r in Hk by lia.
  assert (Hpos : 0 < 2 ^ p) by (apply Z.pow_pos_nonneg; lia).
  split.
  - exists (k * 2 ^ p). lia.
  - exists k. subst m. rewrite Z.mul_assoc. rewrite Z.div_mul by lia. reflexivity.
Qed.

Lemma iter_shr_1 (p : positive) :
  forall mrs, 0 <= shr_m mrs ->
    0 <= shr_m (iter_pos shr_1 p mrs) /\
    shr_m (iter_pos shr_1 p mrs) = shr_m mrs / 2 ^ Zpos p /\
    (lost mrs = false -> (2 ^ Zpos p | shr_m mrs) ->
     lost (iter_pos shr_1 p mrs) = false).
Proof.
  induction p as [p IH|p IH|]; intros mrs Hm; cbn [iter_pos].
  - destruct (shr_1_m mrs Hm) as [H1 H1'].
    destruct (IH (shr_1 mrs) H1') as (H2' & H2 & L2).
    destruct (IH _ H2') as (H3' & H3 & L3).
    assert (Hpos : 0 < 2 ^ Zpos p) by (apply Z.pow_pos_nonneg; lia).
    assert (Hpow : 2 ^ Zpos p~1 = 2 * (2 ^ Zpos p * 2 ^ Zpos p)).
    { rewrite (Pos2Z.inj_xI p). rewrite Z.pow_add_r by lia.
      replace (2 * Zpos p) with (Zpos p + Zpos p) by lia.
      rewrite Z.pow_add_r by lia. lia. }
    split; [exact H3'|]. split.
    + rewrite H3, H2, H1, Hpow.
      rewrite !Z.div_div by lia. reflexivity.
    + intros Hl Hd. rewrite Hpow in Hd.
      assert (Hd2 : (2 | shr_m mrs)).
      { destruct Hd as [k Hk]. exists (k * (2 ^ Zpos p * 2 ^ Zpos p)). lia. }
      assert (Hdd : (2 ^ (Zpos p + Zpos p) | shr_m (shr_1 mrs))).
      { rewrite H1. destruct Hd as [k Hk]. exists k.
        rewrite Hk. rewrite Z.pow_add_r by lia.
        replace (k * (2 * (2 ^ Zpos p * 2 ^ Zpos p)))
          with (k * (2 ^ Zpos p * 2 ^ Zpos p) * 2) by lia.
        rewrite Z.div_mul by lia. reflexivity. }
      destruct (divide_pow2_double (Zpos p) _ ltac:(lia) H1' Hdd) as [Da Db].
      apply L3.
      * apply L2; [|exact Da]. apply shr_1_lost; assumption.
      * rewrite H2. exact Db.
  - destruct (IH mrs Hm) as (H2' & H2 & L2).
    destruct (IH _ H2') as (H3' & H3 & L3).
    assert (Hpos : 0 < 2 ^ Zpos p) by (apply Z.pow_pos_nonneg; lia).
    assert (Hpow : 2 ^ Zpos p~0 = 2 ^ Zpos p * 2 ^ Zpos p).
    { rewrite (Pos2Z.inj_xO p).
      replace (2 * Zpos p) with (Zpos p + Zpos p) by lia.
      rewrite Z.pow_add_r by lia. lia. }
    split; [exact H3'|]. split.
    + rewrite H3, H2, Hpow. rewrite Z.div_div by lia. reflexivity.
    + intros Hl Hd.
      assert (Hdd : (2 ^ (Zpos p + Zpos p) | shr_m mrs)).
      { rewrite Z.pow_add_r by lia. rewrite <- Hpow. exact Hd. }
      destruct (divide_pow2_double (Zpos p) _ ltac:(lia) Hm Hdd) as [Da Db].
      apply L3.
      * apply L2; assumption.
      * rewrite H2. exact Db.
  - destruct (shr_1_m mrs Hm) as [H1 H1'].
    split; [exact H1'|]. split.
    + rewrite H1. reflexivity.
    + intros Hl Hd. apply shr_1_lost; assumption.
Qed.


Lemma digits2_pos_bounds (m : positive) :
  2 ^ (Zpos (digits2_pos m) - 1) <= Zpos m < 2 ^ Zpos (digits2_pos m).
Proof.
  induction m as [m IH|m IH|]; cbn [digits2_pos].
  - rewrite Pos2Z.inj_succ, (Pos2Z.inj_xI m).
    replace (Z.succ (Zpos (digits2_pos m)) - 1)
      with (Z.succ (Zpos (digits2_pos m) - 1)) by lia.
    rewrite !Z.pow_succ_r by lia. lia.
  - rewrite Pos2Z.inj_succ, (Pos2Z.inj_xO m).
    replace (Z.succ (Zpos (digits2_pos m)) - 1)
      with (Z.succ (Zpos (digits2_pos m) - 1)) by lia.
    rewrite !Z.pow_succ_r by lia. lia.
  - cbn. lia.
Qed.

Lemma digits2_pos_le (m : positive) (d : Z) :
  Zpos m < 2 ^ d -> Zpos (digits2_pos m) <= d.
Proof.
  intros H. pose proof (digits2_pos_bounds m) as [Hlo _].
  destruct (Z_le_gt_dec (Zpos (digits2_pos m)) d) as [|Hgt]; [assumption|].
  exfalso.
  destruct (Z_lt_le_dec d 0) as [Hneg|Hnn].
  - rewrite Z.pow_neg_r in H by assumption. lia.
  - assert (2 ^ d <= 2 ^ (Zpos (digits2_pos m) - 1))
      by (apply Z.pow_le_mono_r; lia).
    lia.
Qed.

Lemma digits2_pos_ge (m : positive) (d : Z) :
  2 ^ (d - 1) <= Zpos m -> d <= Zpos (digits2_pos m).
Proof.
  intros H. pose proof (digits2_pos_bounds m) as [_ Hhi].
  destruct (Z_le_gt_dec d (Zpos (digits2_pos m))) as [|Hgt]; [assumption|].
  exfalso.
  assert (2 ^ Zpos (digits2_pos m) <= 2 ^ (d - 1))
    by (apply Z.pow_le_mono_r; lia).
  lia.
Qed.

Lemma shr_spec (m : Z) (l : location) (e n : Z) :
  0 <= m ->
  exists mrs,
    shr (shr_record_of_loc m l) e n = (mrs, e + Z.max 0 n) /\
    shr_m mrs = m / 2 ^ Z.max 0 n /\
    (l = loc_Exact -> (2 ^ Z.max 0 n | m) -> loc_of_shr_record mrs = loc_Exact).
Proof.
  intros Hm.
  assert (Hrec : shr_m (shr_record_of_loc m l) = m)
    by (destruct l as [|[]]; reflexivity).
  assert (Hloc : forall mrs, lost mrs = false -> loc_of_shr_record mrs = loc_Exact).
  { intros [m' r s]. unfold lost. cbn. destruct r, s; easy. }
  destruct n as [|p|p]; cbn [shr].
  - exists (shr_record_of_loc m l). rewrite Z.max_l by lia.
    rewrite Z.add_0_r, Z.pow_0_r, Z.div_1_r. repeat split; try assumption.
    intros -> _. reflexivity.
  - destruct (iter_shr_1 p (shr_record_of_loc m l)) as (_ & H2 & L2);
      [rewrite Hrec; exact Hm|].
    exists (iter_pos shr_1 p (shr_record_of_loc m l)).
    rewrite Z.max_r by lia. rewrite Hrec in H2, L2.
    repeat split; [exact H2|].
    intros -> Hd. apply Hloc, L2; [reflexivity | exact Hd].
  - exists (shr_record_of_loc m l). rewrite Z.max_l by lia.
    rewrite Z.add_0_r, Z.pow_0_r, Z.div_1_r. repeat split; try assumption.
    intros -> _. reflexivity.
Qed.

Lemma round_nearest_even_cases (m : Z) (l : location) :
  m <= round_nearest_even m l <= m + 1 /\
  (l = loc_Exact -> round_nearest_even m l = m).
Proof.
  destruct l as [|[]]; cbn; try destruct (Z.even m); split; try lia; easy.
Qed.

(** Rounding a positive mantissa to binary64: the mantissa is shifted right
    by [P] places, with at most one unit added, and nothing is added when
    nothing was lost. *)
Lemma binary_round_aux_spec (s : bool) (M : positive) (e : Z) (loc : location) :
  -1074 <= e ->
  exists (mf : positive) (P : Z),
    0 <= P <= Z.max 0 (Zpos (digits2_pos M) - 53) + 1 /\
    binary_round_aux prec emax s (Zpos M) e loc =
      (if e + P <=? 971 then S754_finite s mf (e + P) else S754_infinity s) /\
    Zpos M / 2 ^ P <= Zpos mf /\
    (forall b, Zpos M < b * 2 ^ P \/ (Zpos M = b * 2 ^ P /\ loc = loc_Exact) ->
               Zpos mf <= b) /\
    (Zpos (digits2_pos M) <= 53 -> loc = loc_Exact -> P = 0 /\ mf = M).
Proof.
  intros He. unfold binary_round_aux, shr_fexp.
  set (d := Zpos (digits2_pos M)).
  pose proof (digits2_pos_bounds M) as [Hdlo Hdhi]. fold d in Hdlo, Hdhi.
  assert (Hd1 : 1 <= d) by (unfold d; lia).
  change (Zdigits2 (Zpos M)) with d.
  set (n1 := fexp prec emax (d + e) - e).
  set (P1 := Z.max 0 (d - 53)).
  assert (HP1 : Z.max 0 n1 = P1).
  { unfold n1, P1, fexp, emin, prec, emax. zfold. lia. }
  destruct (shr_spec (Zpos M) loc e n1 ltac:(lia)) as (mrs1 & E1 & M1 & L1).
  rewrite E1. rewrite HP1 in *.
  assert (Hpow1 : 0 < 2 ^ P1) by (apply Z.pow_pos_nonneg; unfold P1; lia).
  assert (Hm1lo : 1 <= shr_m mrs1).
  { rewrite M1. unfold P1. destruct (Z.max_spec 0 (d - 53)) as [[Hlt ->]|[_ ->]].
    - assert (2 ^ (d - 53) * 1 <= Zpos M).
      { replace (d - 1) with ((d - 53) + 52) in Hdlo by lia.
        rewrite Z.pow_add_r in Hdlo by lia.
        assert (1 <= 2 ^ 52) by (cbn; lia).
        assert (0 < 2 ^ (d - 53)) by (apply Z.pow_pos_nonneg; lia). nia. }
      apply Z.div_le_lower_bound; [apply Z.pow_pos_nonneg; lia | lia].
    - rewrite Z.pow_0_r, Z.div_1_r. lia. }
  assert (Hm1hi : shr_m mrs1 < 2 ^ 53).
  { rewrite M1. unfold P1. destruct (Z.max_spec 0 (d - 53)) as [[Hlt ->]|[Hle ->]].
    - apply Z.div_lt_upper_bound; [apply Z.pow_pos_nonneg; lia|].
      rewrite <- Z.pow_add_r by lia. replace (d - 53 + 53) with d by lia. exact Hdhi.
    - rewrite Z.pow_0_r, Z.div_1_r.
      assert (2 ^ d <= 2 ^ 53) by (apply Z.pow_le_mono_r; lia). lia. }
  set (rnd := round_nearest_even (shr_m mrs1) (loc_of_shr_record mrs1)).
  destruct (round_nearest_even_cases (shr_m mrs1) (loc_of_shr_record mrs1))
    as [Hrnd Hexact]. fold rnd in Hrnd, Hexact.
  assert (Hrndpos : 0 < rnd) by lia.
  destruct rnd as [|r|r] eqn:Er; [lia| |lia].
  set (dr := Zpos (digits2_pos r)).
  change (Zdigits2 (Zpos r)) with dr.
  set (n2 := fexp prec emax (dr + (e + P1)) - (e + P1)).
  set (P2 := Z.max 0 (dr - 53)).
  assert (HP1nn : 0 <= P1) by (unfold P1; lia).
  assert (HP2 : Z.max 0 n2 = P2).
  { unfold n2, P2, fexp, emin, prec, emax. zfold. lia. }
  assert (Hdr : dr <= 54).
  { apply digits2_pos_le. change (2 ^ 54) with (2 * 2 ^ 53). lia. }
  assert (HP2le : 0 <= P2 <= 1) by (unfold P2; lia).
  destruct (shr_spec (Zpos r) loc_Exact (e + P1) n2 ltac:(lia)) as (mrs2 & E2 & M2 & _).
  rewrite E2. rewrite HP2 in *.
  assert (Hpow2 : 0 < 2 ^ P2) by (apply Z.pow_pos_nonneg; lia).
  assert (Hmf : 1 <= shr_m mrs2).
  { rewrite M2. apply Z.div_le_lower_bound; [exact Hpow2|].
    unfold P2. destruct (Z.max_spec 0 (dr - 53)) as [[Hlt ->]|[_ ->]].
    - pose proof (digits2_pos_bounds r) as [Hrlo _]. fold dr in Hrlo.
      assert (2 ^ (dr - 53) <= 2 ^ (dr - 1)) by (apply Z.pow_le_mono_r; lia). lia.
    - rewrite Z.pow_0_r. lia. }
  destruct (shr_m mrs2) as [|mf|mf] eqn:Emf; [lia| |lia].
  exists mf, (P1 + P2).
  assert (Hpow : 2 ^ (P1 + P2) = 2 ^ P1 * 2 ^ P2) by (apply Z.pow_add_r; lia).
  split; [unfold P1 in *; lia|]. split.
  { replace (e + P1 + P2) with (e + (P1 + P2)) by lia.
    change (emax - prec) with 971. reflexivity. }
  split; [|split].
  - rewrite Hpow, <- Z.div_div by lia. rewrite <- M1.
    rewrite M2. apply Z.div_le_mono; lia.
  - intros b Hb. rewrite M2.
    destruct Hb as [Hlt|[Heq ->]].
    + assert (shr_m mrs1 < b * 2 ^ P2).
      { rewrite M1. apply Z.div_lt_upper_bound; [exact Hpow1|].
        rewrite Hpow in Hlt. lia. }
      assert (Zpos r <= b * 2 ^ P2) by lia.
      apply Z.div_le_upper_bound; lia.
    + assert (Hdiv : (2 ^ P1 | Zpos M)).
      { exists (b * 2 ^ P2). rewrite Heq, Hpow. lia. }
      rewrite (Hexact (L1 eq_refl Hdiv)), M1, Heq, Hpow.
      replace (b * (2 ^ P1 * 2 ^ P2)) with (b * 2 ^ P2 * 2 ^ P1) by lia.
      rewrite Z.div_mul by lia. rewrite Z.div_mul by lia. lia.
  - intros Hd53 ->. fold d in Hd53.
    assert (HP10 : P1 = 0) by (unfold P1; lia).
    assert (Hr : Zpos r = Zpos M).
    { rewrite (Hexact (L1 eq_refl ltac:(rewrite HP10; apply Z.divide_1_l))), M1, HP10.
      rewrite Z.pow_0_r, Z.div_1_r. reflexivity. }
    assert (HP20 : P2 = 0).
    { unfold P2, dr. injection Hr as ->. fold d. lia. }
    split; [lia|].
    rewrite HP20, Z.pow_0_r, Z.div_1_r, Hr in M2. congruence.
Qed.


Lemma pos_iter_xO (d m : positive) :
  Zpos (Pos.iter xO m d) = Zpos m * 2 ^ Zpos d.
Proof.
  induction d as [|d IH] using Pos.peano_ind.
  - cbn [Pos.iter]. rewrite (Pos2Z.inj_xO m). change (2 ^ 1) with 2. lia.
  - rewrite Pos.iter_succ, Pos2Z.inj_succ, Z.pow_succ_r by lia.
    rewrite (Pos2Z.inj_xO (Pos.iter xO m d)), IH. lia.
Qed.

Lemma shl_align_spec (mx : positive) (ex ex' : Z) :
  exists mz,
    shl_align mx ex ex' = (mz, Z.min ex ex') /\
    Zpos mz = Zpos mx * 2 ^ (ex - Z.min ex ex').
Proof.
  unfold shl_align. zfold.
  destruct (ex' - ex) as [|d|d] eqn:Ed.
  - exists mx. rewrite Z.min_l by lia.
    rewrite Z.sub_diag, Z.pow_0_r. split; [reflexivity | lia].
  - exists mx. rewrite Z.min_l by lia.
    rewrite Z.sub_diag, Z.pow_0_r. split; [reflexivity | lia].
  - exists (Pos.iter xO mx d). rewrite Z.min_r by lia. split; [reflexivity|].
    rewrite pos_iter_xO. f_equal. f_equal. lia.
Qed.

Lemma digits2_pos_shift (m mz : positive) (k : Z) :
  0 <= k -> Zpos mz = Zpos m * 2 ^ k ->
  Zpos (digits2_pos mz) = Zpos (digits2_pos m) + k.
Proof.
  intros Hk Hmz. pose proof (digits2_pos_bounds m) as [Hlo Hhi].
  assert (Hpow : 0 < 2 ^ k) by (apply Z.pow_pos_nonneg; lia).
  apply Z.le_antisymm.
  - apply digits2_pos_le. rewrite Hmz, Z.pow_add_r by lia. nia.
  - apply digits2_pos_ge.
    replace (Zpos (digits2_pos m) + k - 1) with (Zpos (digits2_pos m) - 1 + k) by lia.
    rewrite Hmz, Z.pow_add_r by lia. nia.
Qed.

(** [binary_round]: the mantissa is first brought to the exponent [ez],
    then rounded. *)
Lemma binary_round_spec (s : bool) (p : positive) (e : Z) :
  -1074 <= e ->
  exists (ez : Z) (mz mf : positive) (P : Z),
    ez = Z.min e (Z.max (Zpos (digits2_pos p) + e - 53) (-1074)) /\
    Zpos mz = Zpos p * 2 ^ (e - ez) /\
    0 <= P <= Z.max 0 (Zpos (digits2_pos p) + e - ez - 53) + 1 /\
    binary_round prec emax s p e =
      (if ez + P <=? 971 then S754_finite s mf (ez + P) else S754_infinity s) /\
    Zpos mz / 2 ^ P <= Zpos mf /\
    (forall b, Zpos mz <= b * 2 ^ P -> Zpos mf <= b) /\
    (Zpos (digits2_pos p) + e - ez <= 53 -> P = 0 /\ mf = mz).
Proof.
  intros He. unfold binary_round.
  set (d := Zpos (digits2_pos p)).
  assert (Hf : fexp prec emax (d + e) = Z.max (d + e - 53) (-1074)).
  { unfold fexp, emin, prec, emax. zfold. reflexivity. }
  zfold. rewrite Hf.
  destruct (shl_align_spec p e (Z.max (d + e - 53) (-1074))) as (mz & Ea & Hmz).
  rewrite Ea.
  set (ez := Z.min e (Z.max (d + e - 53) (-1074))) in *.
  assert (Hez : -1074 <= ez <= e) by (unfold ez; lia).
  pose proof (digits2_pos_shift p mz (e - ez) ltac:(lia) Hmz) as Hdz. fold d in Hdz.
  destruct (binary_round_aux_spec s mz ez loc_Exact ltac:(lia))
    as (mf & P & HP & Er & Hlo & Hhi & Hex).
  exists ez, mz, mf, P. rewrite Hdz in HP, Hex.
  split; [reflexivity|]. split; [exact Hmz|].
  split; [lia|]. split; [exact Er|]. split; [exact Hlo|]. split.
  - intros b Hb. apply Hhi.
    destruct (Z_le_lt_eq_dec _ _ Hb) as [Hlt|Heq]; [left; exact Hlt | right; split; [exact Heq | reflexivity]].
  - intros Hd. apply Hex; [lia | reflexivity].
Qed.

(** An integer below 2^53 in magnitude converts exactly, to a mantissa of
    53 bits. *)
Lemma binary_round_int (s : bool) (p : positive) :
  Zpos p < 2 ^ 53 ->
  exists mx ex,
    binary_round prec emax s p 0 = S754_finite s mx ex /\
    -52 <= ex <= 0 /\
    Zpos mx = Zpos p * 2 ^ (- ex) /\
    2 ^ 52 <= Zpos mx < 2 ^ 53.
Proof.
  intros Hp.
  destruct (binary_round_spec s p 0 ltac:(lia))
    as (ez & mz & mf & P & Hez & Hmz & HP & Er & _ & _ & Hex).
  pose proof (digits2_pos_le p 53 Hp) as Hd.
  assert (Hd1 : 1 <= Zpos (digits2_pos p)) by lia.
  assert (Hez' : ez = Zpos (digits2_pos p) - 53) by lia.
  destruct (Hex ltac:(lia)) as [-> ->].
  exists mz, ez. rewrite Er, Z.add_0_r.
  destruct (Z.leb_spec ez 971); [|lia].
  split; [reflexivity|]. split; [lia|].
  replace (0 - ez) with (- ez) in Hmz by lia.
  split; [exact Hmz|].
  pose proof (digits2_pos_shift p mz (- ez) ltac:(lia) Hmz) as Hdz.
  pose proof (digits2_pos_bounds mz) as Hb.
  replace (Zpos (digits2_pos mz)) with 53 in Hb by lia.
  exact Hb.
Qed.

(** A non-zero integer never converts to zero, and one below 2^1000 in
    magnitude converts to a finite number. *)
Lemma binary_round_nonzero (s : bool) (p : positive) :
  (exists mx ex, binary_round prec emax s p 0 = S754_finite s mx ex) \/
  binary_round prec emax s p 0 = S754_infinity s.
Proof.
  destruct (binary_round_spec s p 0 ltac:(lia))
    as (ez & mz & mf & P & _ & _ & _ & Er & _).
  rewrite Er. destruct (ez + P <=? 971); [left; eauto | right; reflexivity].
Qed.

Lemma binary_round_finite (s : bool) (p : positive) :
  Zpos p < 2 ^ 1000 ->
  exists mx ex, binary_round prec emax s p 0 = S754_finite s mx ex.
Proof.
  intros Hp.
  destruct (binary_round_spec s p 0 ltac:(lia))
    as (ez & mz & mf & P & Hez & _ & HP & Er & _).
  pose proof (digits2_pos_le p 1000 Hp) as Hd.
  rewrite Er. destruct (Z.leb_spec (ez + P) 971); [eauto | lia].
Qed.


Lemma fexp_eq (x : Z) : fexp prec emax x = Z.max (x - 53) (-1074).
Proof. unfold fexp, emin, prec, emax. zfold. reflexivity. Qed.

Lemma new_location_zero (nb_steps : Z) : new_location nb_steps 0 = loc_Exact.
Proof.
  unfold new_location, new_location_even, new_location_odd.
  destruct (IntDef.Z.even nb_steps); reflexivity.
Qed.

(** Division of two integers held exactly in 53-bit mantissas: the
    quotient [n / r], rounded to the grid of step [2 ^ eq]; a bound on
    [n / r] that lies on that grid also bounds the rounded quotient. *)
Lemma SFdiv_int (sx sy : bool) (m1 m2 : positive) (e1 e2 n r : Z) :
  0 < n -> 0 < r ->
  Zpos m1 = n * 2 ^ (- e1) -> Zpos m2 = r * 2 ^ (- e2) ->
  2 ^ 52 <= Zpos m1 < 2 ^ 53 -> 2 ^ 52 <= Zpos m2 < 2 ^ 53 ->
  -52 <= e1 <= 0 -> -52 <= e2 <= 0 ->
  exists mq eq,
    SFdiv prec emax (S754_finite sx m1 e1) (S754_finite sy m2 e2)
      = S754_finite (xorb sx sy) mq eq /\
    e1 - e2 - 53 <= eq <= e1 - e2 - 51 /\
    (forall a g, 0 <= g <= - eq -> a * r <= n * 2 ^ g ->
                 a * 2 ^ (- eq - g) <= Zpos mq) /\
    (forall b g, 0 <= g <= - eq -> n * 2 ^ g <= b * r ->
                 Zpos mq <= b * 2 ^ (- eq - g)).
Proof.
  intros Hn Hr Hm1 Hm2 B1 B2 He1 He2.
  assert (D1 : Zpos (digits2_pos m1) = 53).
  { apply Z.le_antisymm; [apply digits2_pos_le | apply digits2_pos_ge]; lia. }
  assert (D2 : Zpos (digits2_pos m2) = 53).
  { apply Z.le_antisymm; [apply digits2_pos_le | apply digits2_pos_ge]; lia. }
  cbn [SFdiv]. unfold SFdiv_core_binary.
  change (Zdigits2 (Zpos m1)) with (Zpos (digits2_pos m1)).
  change (Zdigits2 (Zpos m2)) with (Zpos (digits2_pos m2)).
  rewrite D1, D2. zfold. rewrite fexp_eq.
  set (E := e1 - e2 - 53).
  replace (Z.min (Z.max (53 + e1 - (53 + e2) - 53) (-1074)) (e1 - e2))
    with E by (unfold E; lia).
  replace (e1 - e2 - E) with 53 by (unfold E; lia).
  rewrite Z.shiftl_mul_pow2 by lia.
  pose proof (Z_div_mod (Zpos m1 * 2 ^ 53) (Zpos m2) ltac:(lia)) as Hdm.
  destruct (Z.div_eucl (Zpos m1 * 2 ^ 53) (Zpos m2)) as [q0 rem].
  destruct Hdm as [Hq0 Hrem].
  assert (P52 : 2 ^ 52 = 4503599627370496) by reflexivity.
  assert (P53 : 2 ^ 53 = 9007199254740992) by reflexivity.
  assert (Hq0lo : 2 ^ 52 <= q0) by nia.
  assert (Hq0hi : q0 < 2 ^ 54).
  { change (2 ^ 54) with 18014398509481984. nia. }
  destruct q0 as [|q0|q0]; [lia| |lia].
  destruct (binary_round_aux_spec (xorb sx sy) q0 E (new_location (Zpos m2) rem)
              ltac:(unfold E; lia))
    as (mq & P & HP & Er & Hlo & Hhi & _).
  pose proof (digits2_pos_le q0 54 Hq0hi) as Dq.
  exists mq, (E + P). rewrite Er.
  destruct (Z.leb_spec (E + P) 971); [|unfold E in *; lia].
  split; [reflexivity|]. split; [unfold E; lia|].
  assert (HpowP : 0 < 2 ^ P) by (apply Z.pow_pos_nonneg; lia).
  assert (Hpe1 : 0 < 2 ^ (- e1)) by (apply Z.pow_pos_nonneg; lia).
  assert (Hpe2 : 0 < 2 ^ (- e2)) by (apply Z.pow_pos_nonneg; lia).
  split.
  - intros a g Hg Ha.
    apply Z.le_trans with (Zpos q0 / 2 ^ P); [|exact Hlo].
    apply Z.div_le_lower_bound; [exact HpowP|].
    set (t := - (E + P) - g) in *.
    assert (Ht : 0 <= t) by (unfold t; lia).
    assert (Hw : 0 <= - e1 + 53 - g) by (unfold E in *; lia).
    assert (Hnum : Zpos m1 * 2 ^ 53 = n * 2 ^ g * 2 ^ (- e1 + 53 - g)).
    { rewrite Hm1, <- !Z.mul_assoc, <- !Z.pow_add_r by lia.
      f_equal. f_equal. lia. }
    assert (Hden : 2 ^ P * 2 ^ t * 2 ^ (- e2) = 2 ^ (- e1 + 53 - g)).
    { rewrite <- !Z.pow_add_r by lia. f_equal. unfold t, E. lia. }
    assert (Hpw : 0 < 2 ^ (- e1 + 53 - g)) by (apply Z.pow_pos_nonneg; lia).
    assert (Hpt : 0 < 2 ^ t) by (apply Z.pow_pos_nonneg; lia).
    destruct (Z_le_gt_dec (2 ^ P * (a * 2 ^ t)) (Zpos q0)) as [|Hgt]; [assumption|].
    exfalso.
    assert (Zpos q0 + 1 <= 2 ^ P * (a * 2 ^ t)) by lia.
    assert (Zpos m2 * (Zpos q0 + 1) <= Zpos m2 * (2 ^ P * (a * 2 ^ t)))
      by (apply Z.mul_le_mono_nonneg_l; lia).
    assert (Zpos m2 * (2 ^ P * (a * 2 ^ t)) = a * r * 2 ^ (- e1 + 53 - g)).
    { rewrite <- Hden, Hm2. ring. }
    assert (a * r * 2 ^ (- e1 + 53 - g) <= n * 2 ^ g * 2 ^ (- e1 + 53 - g))
      by (apply Z.mul_le_mono_nonneg_r; lia).
    lia.
  - intros b g Hg Hb.
    set (t := - (E + P) - g) in *.
    assert (Ht : 0 <= t) by (unfold t; lia).
    assert (Hw : 0 <= - e1 + 53 - g) by (unfold E in *; lia).
    assert (Hnum : Zpos m1 * 2 ^ 53 = n * 2 ^ g * 2 ^ (- e1 + 53 - g)).
    { rewrite Hm1, <- !Z.mul_assoc, <- !Z.pow_add_r by lia.
      f_equal. f_equal. lia. }
    assert (Hden : 2 ^ P * 2 ^ t * 2 ^ (- e2) = 2 ^ (- e1 + 53 - g)).
    { rewrite <- !Z.pow_add_r by lia. f_equal. unfold t, E. lia. }
    assert (Hpw : 0 < 2 ^ (- e1 + 53 - g)) by (apply Z.pow_pos_nonneg; lia).
    assert (Hpt : 0 < 2 ^ t) by (apply Z.pow_pos_nonneg; lia).
    assert (Hle : Zpos m1 * 2 ^ 53 <= Zpos m2 * (b * 2 ^ t * 2 ^ P)).
    { replace (Zpos m2 * (b * 2 ^ t * 2 ^ P))
        with (b * r * (2 ^ P * 2 ^ t * 2 ^ (- e2))) by (rewrite Hm2; ring).
      rewrite Hden, Hnum. apply Z.mul_le_mono_nonneg_r; lia. }
    apply Hhi.
    destruct (Z_lt_le_dec (Zpos q0) (b * 2 ^ t * 2 ^ P)) as [Hlt|Hge];
      [left; exact Hlt|].
    right.
    assert (Zpos m2 * (b * 2 ^ t * 2 ^ P) <= Zpos m2 * Zpos q0)
      by (apply Z.mul_le_mono_nonneg_l; lia).
    assert (rem = 0) by lia. subst rem.
    split; [|apply new_location_zero].
    assert (Zpos m2 * Zpos q0 = Zpos m2 * (b * 2 ^ t * 2 ^ P)) by lia.
    apply Z.mul_reg_l with (Zpos m2); lia.
Qed.


Lemma pow2_pos (x : Z) : 0 <= x -> 0 < 2 ^ x.
Proof. intros. apply Z.pow_pos_nonneg; lia. Qed.

Lemma pow2_split (x y : Z) : 0 <= y <= x -> 2 ^ x = 2 ^ (x - y) * 2 ^ y.
Proof. intros. rewrite <- Z.pow_add_r by lia. f_equal. lia. Qed.

Lemma shiftl_neg_div (m e : Z) : e <= 0 -> Z.shiftl m e = m / 2 ^ (- e).
Proof.
  intros He. rewrite <- (Z.opp_involutive e) at 1.
  change (Z.shiftl m (- - e)) with (Z.shiftr m (- e)).
  apply Z.shiftr_div_pow2. lia.
Qed.

(** Adding one to a positive float whose value lies in
    [[k, k + 1 - 2^-25]] and truncating gives [k + 1]. *)
Lemma add_one_truncates {E} (mq : positive) (eq k : Z) :
  -1000 <= eq <= -25 -> 0 <= k < 2 ^ 25 ->
  k * 2 ^ (- eq) <= Zpos mq <= (k + 1) * 2 ^ (- eq) - 2 ^ (- eq - 25) ->
  match float_add_int (E:=E) (S754_finite false mq eq) 1 with
  | Ok s => int_of_float (E:=E) s
  | Raise e => Raise e
  end = Ok (k + 1).
Proof.
  intros Heq Hk Hmq.
  unfold float_add_int.
  change (float_of_int (E:=E) 1) with (Ok (E:=E) (S754_finite false 4503599627370496 (-52))).
  cbn [SFadd]. zfold.
  set (ez := Z.min eq (-52)).
  destruct (shl_align_spec mq eq ez) as (ma & Ea & Hma).
  destruct (shl_align_spec 4503599627370496 (-52) ez) as (mb & Eb & Hmb).
  rewrite Ea, Eb. cbn [fst cond_Zopp].
  replace (Z.min eq ez) with ez in Hma by (unfold ez; lia).
  replace (Z.min (-52) ez) with ez in Hmb by (unfold ez; lia).
  change (Zpos ma + Zpos mb) with (Zpos (ma + mb)).
  cbn [binary_normalize].
  assert (Hez : -1000 <= ez <= -52) by (unfold ez; lia).
  assert (Hmb' : Zpos mb = 2 ^ (- ez)).
  { rewrite Hmb. change 4503599627370496 with (2 ^ 52).
    rewrite <- Z.pow_add_r by lia. f_equal. lia. }
  assert (Hpez : 0 < 2 ^ (- ez)) by (apply pow2_pos; lia).
  assert (Hpd : 0 < 2 ^ (eq - ez)) by (apply pow2_pos; lia).
  assert (Hsplit : 2 ^ (- ez) = 2 ^ (- eq) * 2 ^ (eq - ez)).
  { rewrite <- Z.pow_add_r by lia. f_equal. lia. }
  assert (Hsplit25 : 2 ^ (- ez - 25) = 2 ^ (- eq - 25) * 2 ^ (eq - ez)).
  { rewrite <- Z.pow_add_r by lia. f_equal. lia. }
  assert (Hp25 : 0 < 2 ^ (- ez - 25)) by (apply pow2_pos; lia).
  set (M := (ma + mb)%positive).
  assert (HM : Zpos M = Zpos mq * 2 ^ (eq - ez) + 2 ^ (- ez)).
  { unfold M. rewrite Pos2Z.inj_add, Hma, Hmb'. reflexivity. }
  assert (HMlo : (k + 1) * 2 ^ (- ez) <= Zpos M).
  { rewrite HM.
    assert (k * 2 ^ (- eq) * 2 ^ (eq - ez) <= Zpos mq * 2 ^ (eq - ez))
      by (apply Z.mul_le_mono_nonneg_r; lia).
    rewrite Hsplit at 1. lia. }
  assert (HMhi : Zpos M <= (k + 2) * 2 ^ (- ez) - 2 ^ (- ez - 25)).
  { rewrite HM.
    assert (Zpos mq * 2 ^ (eq - ez)
            <= ((k + 1) * 2 ^ (- eq) - 2 ^ (- eq - 25)) * 2 ^ (eq - ez))
      by (apply Z.mul_le_mono_nonneg_r; lia).
    rewrite Hsplit25. rewrite Hsplit at 1. lia. }
  assert (HdM : - ez + 1 <= Zpos (digits2_pos M) <= 26 - ez).
  { split.
    - apply digits2_pos_ge. replace (- ez + 1 - 1) with (- ez) by lia. nia.
    - apply digits2_pos_le.
      replace (26 - ez) with (26 + - ez) by lia. rewrite Z.pow_add_r by lia.
      change (2 ^ 26) with 67108864. change (2 ^ 25) with 33554432 in Hk. nia. }
  destruct (binary_round_spec false M ez ltac:(lia))
    as (ez' & mz & mf & P & Hez' & Hmz & HP & Er & Hlo & Hhi & _).
  assert (Hez'' : ez' = ez) by lia. clear Hez'. subst ez'.
  rewrite Z.sub_diag, Z.pow_0_r, Z.mul_1_r in Hmz.
  rewrite Er. destruct (Z.leb_spec (ez + P) 971); [|lia].
  cbn [int_of_float cond_Zopp]. f_equal.
  set (es := ez + P) in *.
  assert (Hes : ez <= es <= -26) by (unfold es; lia).
  rewrite shiftl_neg_div by lia.
  assert (HpP : 0 < 2 ^ P) by (apply pow2_pos; lia).
  assert (Hpes : 0 < 2 ^ (- es)) by (apply pow2_pos; lia).
  assert (Hpes25 : 0 < 2 ^ (- es - 25)) by (apply pow2_pos; lia).
  assert (Hs1 : 2 ^ (- ez) = 2 ^ (- es) * 2 ^ P).
  { rewrite <- Z.pow_add_r by lia. f_equal. unfold es. lia. }
  assert (Hs2 : 2 ^ (- ez - 25) = 2 ^ (- es - 25) * 2 ^ P).
  { rewrite <- Z.pow_add_r by lia. f_equal. unfold es. lia. }
  assert (Hmflo : (k + 1) * 2 ^ (- es) <= Zpos mf).
  { apply Z.le_trans with (Zpos mz / 2 ^ P); [|exact Hlo].
    apply Z.div_le_lower_bound; [exact HpP|]. rewrite Hmz. rewrite Hs1 in HMlo. lia. }
  assert (Hmfhi : Zpos mf <= (k + 2) * 2 ^ (- es) - 2 ^ (- es - 25)).
  { apply Hhi. rewrite Hmz. rewrite Hs1, Hs2 in HMhi. lia. }
  symmetry. apply Z.div_unique with (r := Zpos mf - (k + 1) * 2 ^ (- es)); lia.
Qed.

(** Adding one to a negative float of magnitude at least 2^-25 and at
    most 2^25 and truncating gives no positive integer. *)
Lemma add_one_negative {E} (mq : positive) (eq : Z) :
  -1000 <= eq <= -25 ->
  2 ^ (- eq - 25) <= Zpos mq <= 2 ^ (- eq + 25) ->
  exists c, match float_add_int (E:=E) (S754_finite true mq eq) 1 with
            | Ok s => int_of_float (E:=E) s
            | Raise e => Raise e
            end = Ok c /\ c <= 0.
Proof.
  intros Heq Hmq.
  unfold float_add_int.
  change (float_of_int (E:=E) 1) with (Ok (E:=E) (S754_finite false 4503599627370496 (-52))).
  cbn [SFadd]. zfold.
  set (ez := Z.min eq (-52)).
  destruct (shl_align_spec mq eq ez) as (ma & Ea & Hma).
  destruct (shl_align_spec 4503599627370496 (-52) ez) as (mb & Eb & Hmb).
  rewrite Ea, Eb. cbn [fst cond_Zopp].
  replace (Z.min eq ez) with ez in Hma by (unfold ez; lia).
  replace (Z.min (-52) ez) with ez in Hmb by (unfold ez; lia).
  assert (Hez : -1000 <= ez <= -52) by (unfold ez; lia).
  assert (Hmb' : Zpos mb = 2 ^ (- ez)).
  { rewrite Hmb. change 4503599627370496 with (2 ^ 52).
    rewrite <- Z.pow_add_r by lia. f_equal. lia. }
  assert (Hpez : 0 < 2 ^ (- ez)) by (apply pow2_pos; lia).
  assert (Hpd : 0 < 2 ^ (eq - ez)) by (apply pow2_pos; lia).
  assert (Hsplit25 : 2 ^ (- ez - 25) = 2 ^ (- eq - 25) * 2 ^ (eq - ez)).
  { rewrite <- Z.pow_add_r by lia. f_equal. lia. }
  assert (Hsplit25' : 2 ^ (- ez + 25) = 2 ^ (- eq + 25) * 2 ^ (eq - ez)).
  { rewrite <- Z.pow_add_r by lia. f_equal. lia. }
  assert (Hp25 : 0 < 2 ^ (- ez - 25)) by (apply pow2_pos; lia).
  assert (Hmalo : 2 ^ (- ez - 25) <= Zpos ma).
  { rewrite Hma, Hsplit25. apply Z.mul_le_mono_nonneg_r; lia. }
  assert (Hmahi : Zpos ma <= 2 ^ (- ez + 25)).
  { rewrite Hma, Hsplit25'. apply Z.mul_le_mono_nonneg_r; lia. }
  destruct (- Zpos ma + Zpos mb) as [|M|M] eqn:EM; cbn [binary_normalize].
  - exists 0. split; [reflexivity | lia].
  - (* the sum is positive and below one *)
    assert (HMhi : Zpos M <= 2 ^ (- ez) - 2 ^ (- ez - 25)) by lia.
    assert (HdM : Zpos (digits2_pos M) <= - ez).
    { apply digits2_pos_le. lia. }
    destruct (binary_round_spec false M ez ltac:(lia))
      as (ez' & mz & mf & P & Hez' & Hmz & HP & Er & Hlo & Hhi & _).
    rewrite Er. destruct (Z.leb_spec (ez' + P) 971); [|lia].
    cbn [int_of_float cond_Zopp]. exists (Z.shiftl (Zpos mf) (ez' + P)).
    split; [reflexivity|].
    set (es := ez' + P) in *.
    assert (Hes : -1074 <= es <= -51) by (unfold es; lia).
    rewrite shiftl_neg_div by lia.
    assert (HpP : 0 < 2 ^ P) by (apply pow2_pos; lia).
    assert (Hpes : 0 < 2 ^ (- es)) by (apply pow2_pos; lia).
    assert (Hpes25 : 0 < 2 ^ (- es - 25)) by (apply pow2_pos; lia).
    assert (Hpz : 0 < 2 ^ (ez - ez')) by (apply pow2_pos; lia).
    assert (Hs1 : 2 ^ (- ez) * 2 ^ (ez - ez') = 2 ^ (- es) * 2 ^ P).
    { rewrite <- !Z.pow_add_r by lia. f_equal. unfold es. lia. }
    assert (Hs2 : 2 ^ (- ez - 25) * 2 ^ (ez - ez') = 2 ^ (- es - 25) * 2 ^ P).
    { rewrite <- !Z.pow_add_r by lia. f_equal. unfold es. lia. }
    assert (Hmfhi : Zpos mf <= 2 ^ (- es) - 2 ^ (- es - 25)).
    { apply Hhi. rewrite Hmz.
      assert (Zpos M * 2 ^ (ez - ez')
              <= (2 ^ (- ez) - 2 ^ (- ez - 25)) * 2 ^ (ez - ez'))
        by (apply Z.mul_le_mono_nonneg_r; lia).
      lia. }
    rewrite Z.div_small by lia. lia.
  - (* the sum is negative *)
    assert (HMhi : Zpos M <= 2 ^ (- ez + 25)) by lia.
    assert (HdM : Zpos (digits2_pos M) <= - ez + 26).
    { apply digits2_pos_le.
      replace (- ez + 26) with (Z.succ (- ez + 25)) by lia.
      rewrite Z.pow_succ_r by lia.
      assert (0 < 2 ^ (- ez + 25)) by (apply pow2_pos; lia). lia. }
    destruct (binary_round_spec true M ez ltac:(lia))
      as (ez' & mz & mf & P & Hez' & Hmz & HP & Er & Hlo & Hhi & _).
    rewrite Er. destruct (Z.leb_spec (ez' + P) 971); [|lia].
    cbn [int_of_float cond_Zopp]. eexists. split; [reflexivity|].
    assert (0 <= Z.shiftl (Zpos mf) (ez' + P)) by (apply Z.shiftl_nonneg; lia).
    lia.
Qed.

(** ** The chunk count *)

Lemma float_of_int_pos {E} (z : Z) :
  0 < z < 2 ^ 53 ->
  exists mx ex,
    float_of_int (E:=E) z = Ok (S754_finite false mx ex) /\
    -52 <= ex <= 0 /\ Zpos mx = z * 2 ^ (- ex) /\ 2 ^ 52 <= Zpos mx < 2 ^ 53.
Proof.
  intros Hz. destruct z as [|p|p]; [lia| |lia].
  destruct (binary_round_int false p ltac:(lia)) as (mx & ex & Er & H).
  exists mx, ex. split; [|exact H].
  unfold float_of_int. cbn [binary_normalize]. rewrite Er. reflexivity.
Qed.

Lemma float_of_int_neg {E} (z : Z) :
  - 2 ^ 53 < z < 0 ->
  exists mx ex,
    float_of_int (E:=E) z = Ok (S754_finite true mx ex) /\
    -52 <= ex <= 0 /\ Zpos mx = - z * 2 ^ (- ex) /\ 2 ^ 52 <= Zpos mx < 2 ^ 53.
Proof.
  intros Hz. destruct z as [|p|p]; [lia|lia|].
  destruct (binary_round_int true p ltac:(lia)) as (mx & ex & Er & H).
  exists mx, ex. split; [|exact H].
  unfold float_of_int. cbn [binary_normalize]. rewrite Er. reflexivity.
Qed.

(** The exponent of the float that holds an integer below 2^25. *)
Lemma small_int_exponent (mx : positive) (ex z : Z) :
  0 < z < 2 ^ 25 -> -52 <= ex <= 0 ->
  Zpos mx = z * 2 ^ (- ex) -> 2 ^ 52 <= Zpos mx -> ex <= -28.
Proof.
  intros Hz Hex Hmx Hlo.
  destruct (Z_le_gt_dec ex (-28)) as [|Hgt]; [assumption|]. exfalso.
  assert (2 ^ (- ex) <= 2 ^ 27) by (apply Z.pow_le_mono_r; lia).
  assert (0 < 2 ^ (- ex)) by (apply pow2_pos; lia).
  change (2 ^ 25) with 33554432 in Hz. change (2 ^ 27) with 134217728 in *.
  change (2 ^ 52) with 4503599627370496 in Hlo. nia.
Qed.

Lemma section_count_exact {E} (n rows : Z) :
  0 <= n < 2 ^ 25 -> 0 < rows < 2 ^ 25 ->
  section_count (E:=E) n rows = Ok (n / rows + 1).
Proof.
  intros Hn Hr. unfold section_count.
  assert (P25 : 2 ^ 25 < 2 ^ 53) by reflexivity.
  destruct (float_of_int_pos (E:=E) rows ltac:(lia))
    as (m2 & e2 & -> & He2 & Hm2 & B2).
  destruct (Z.eq_dec n 0) as [->|Hn0].
  - change (float_of_int (E:=E) 0) with (Ok (E:=E) (S754_zero false)).
    rewrite Z.div_0_l by lia. reflexivity.
  - destruct (float_of_int_pos (E:=E) n ltac:(lia))
      as (m1 & e1 & -> & He1 & Hm1 & B1).
    unfold float_truediv. cbn [SFeqb SFcompare].
    destruct (SFdiv_int false false m1 m2 e1 e2 n rows
                ltac:(lia) ltac:(lia) Hm1 Hm2 B1 B2 He1 He2)
      as (mq & eq & -> & Heq & Hlo & Hhi).
    pose proof (small_int_exponent m1 e1 n ltac:(lia) He1 Hm1 ltac:(lia)).
    pose proof (small_int_exponent m2 e2 rows ltac:(lia) He2 Hm2 ltac:(lia)).
    cbn [xorb].
    apply add_one_truncates.
    + lia.
    + split; [apply Z.div_pos; lia|].
      apply Z.div_lt_upper_bound; [lia|]. nia.
    + pose proof (Z.mul_div_le n rows ltac:(lia)).
      pose proof (Z.mul_succ_div_gt n rows ltac:(lia)).
      split.
      * specialize (Hlo (n / rows) 0 ltac:(lia)).
        rewrite Z.pow_0_r, Z.sub_0_r in Hlo. apply Hlo. lia.
      * specialize (Hhi ((n / rows + 1) * 2 ^ 25 - 1) 25 ltac:(lia)).
        replace (((n / rows + 1) * 2 ^ 25 - 1) * 2 ^ (- eq - 25))
          with ((n / rows + 1) * 2 ^ (- eq) - 2 ^ (- eq - 25)) in Hhi.
        2:{ rewrite (pow2_split (- eq) 25) by lia. ring. }
        apply Hhi. change (2 ^ 25) with 33554432 in *. nia.
Qed.

Lemma section_count_negative {E} (n rows : Z) :
  0 < n < 2 ^ 25 -> - 2 ^ 25 < rows < 0 ->
  exists k, section_count (E:=E) n rows = Ok k /\ k <= 0.
Proof.
  intros Hn Hr. unfold section_count.
  assert (P25 : 2 ^ 25 < 2 ^ 53) by reflexivity.
  destruct (float_of_int_neg (E:=E) rows ltac:(lia))
    as (m2 & e2 & -> & He2 & Hm2 & B2).
  destruct (float_of_int_pos (E:=E) n ltac:(lia))
    as (m1 & e1 & -> & He1 & Hm1 & B1).
  unfold float_truediv. cbn [SFeqb SFcompare].
  destruct (SFdiv_int false true m1 m2 e1 e2 n (- rows)
              ltac:(lia) ltac:(lia) Hm1 Hm2 B1 B2 He1 He2)
    as (mq & eq & -> & Heq & Hlo & Hhi).
  pose proof (small_int_exponent m1 e1 n ltac:(lia) He1 Hm1 ltac:(lia)).
  pose proof (small_int_exponent m2 e2 (- rows) ltac:(lia) He2 Hm2 ltac:(lia)).
  cbn [xorb].
  apply add_one_negative.
  - lia.
  - split.
    + specialize (Hlo 1 25 ltac:(lia)). rewrite !Z.mul_1_l in Hlo.
      apply Hlo. change (2 ^ 25) with 33554432 in *. nia.
    + specialize (Hhi (2 ^ 25) 0 ltac:(lia)).
      rewrite Z.sub_0_r, Z.pow_0_r in Hhi.
      rewrite (Z.pow_add_r 2 (- eq) 25) by lia.
      rewrite Z.mul_comm. apply Hhi.
      change (2 ^ 25) with 33554432 in *. nia.
Qed.


(** [float] raises nothing but [OverflowError], and a non-zero integer
    converts to a finite non-zero number when it converts at all. *)
Lemma float_of_int_raises {E} (z : Z) (e : exn E) :
  float_of_int z = Raise e -> e = OverflowError.
Proof.
  unfold float_of_int.
  destruct (binary_normalize prec emax z 0 false); intros H; inversion H.
  reflexivity.
Qed.

Lemma float_of_int_nonzero {E} (z : Z) :
  z <> 0 ->
  (exists s m e, float_of_int (E:=E) z = Ok (S754_finite s m e))
  \/ float_of_int (E:=E) z = Raise OverflowError.
Proof.
  intros Hz. unfold float_of_int.
  destruct z as [|p|p]; [congruence| |]; cbn [binary_normalize].
  - destruct (binary_round_nonzero false p) as [(m & e & ->)| ->];
      [left; eauto | right; reflexivity].
  - destruct (binary_round_nonzero true p) as [(m & e & ->)| ->];
      [left; eauto | right; reflexivity].
Qed.

Lemma float_of_int_finite {E} (z : Z) :
  z <> 0 -> - 2 ^ 1000 < z < 2 ^ 1000 ->
  exists s m e, float_of_int (E:=E) z = Ok (S754_finite s m e).
Proof.
  intros Hz Hb. unfold float_of_int.
  destruct z as [|p|p]; [congruence| |]; cbn [binary_normalize].
  - destruct (binary_round_finite false p ltac:(lia)) as (m & e & ->). eauto.
  - destruct (binary_round_finite true p ltac:(lia)) as (m & e & ->). eauto.
Qed.

(** With [rows = 0] the count is never computed: the division raises,
    unless the row count itself is too large for a float. *)
Lemma section_count_zero_rows_raises {E} (n : Z) :
  exists e, section_count (E:=E) n 0 = Raise e.
Proof.
  unfold section_count.
  change (float_of_int (E:=E) 0) with (Ok (E:=E) (S754_zero false)).
  destruct (float_of_int n) as [x|e]; [|eauto].
  exists ZeroDivisionError. reflexivity.
Qed.

Lemma section_count_zero_rows {E} (n : Z) :
  0 <= n < 2 ^ 1000 ->
  section_count (E:=E) n 0 = Raise ZeroDivisionError.
Proof.
  intros Hn. unfold section_count.
  change (float_of_int (E:=E) 0) with (Ok (E:=E) (S754_zero false)).
  destruct (Z.eq_dec n 0) as [->|Hn0]; [reflexivity|].
  destruct (float_of_int_finite (E:=E) n Hn0 ltac:(lia)) as (s & m & e & ->).
  reflexivity.
Qed.

(** The division raises only for [rows = 0]. *)
Lemma section_count_zero_division {E} (n rows : Z) :
  section_count (E:=E) n rows = Raise ZeroDivisionError -> rows = 0.
Proof.
  intros H. destruct (Z.eq_dec rows 0) as [|Hr]; [assumption|]. exfalso.
  unfold section_count in H.
  destruct (float_of_int_nonzero (E:=E) rows Hr) as [(s & m & e & Ey)|Ey];
    rewrite Ey in H; [|discriminate].
  destruct (float_of_int n) as [x|e'] eqn:Ex.
  - unfold float_truediv in H. cbn [SFeqb SFcompare] in H.
    destruct s; cbn in H;
      destruct (SFadd prec emax _ _); discriminate.
  - apply float_of_int_raises in Ex. subst e'. discriminate.
Qed.

(** Without rows the count is one, whatever the non-zero bound. *)
Lemma section_count_no_rows {E} (rows : Z) :
  rows <> 0 -> - 2 ^ 1000 < rows < 2 ^ 1000 ->
  section_count (E:=E) 0 rows = Ok 1.
Proof.
  intros Hr Hb. unfold section_count.
  destruct (float_of_int_finite (E:=E) rows Hr Hb) as (s & m & e & ->).
  change (float_of_int (E:=E) 0) with (Ok (E:=E) (S754_zero false)).
  destruct s; reflexivity.
Qed.

End FloatFacts.

(* ================================================================== *)
(** * The split step of [predict] *)
(* ================================================================== *)

Module SplitFacts.
Import Python Numpy Churn NumpyFacts FloatFacts.

Section Split.
Context {Row E : Type}.

(** The number of sections for fewer than 2^25 rows and a positive bound
    below 2^25: one more than the integer quotient. *)
Lemma n_sections_positive (data : list Row) (rows : Z) :
  (0 < rows < 2 ^ 25)%Z ->
  (Z.of_nat (List.length data) < 2 ^ 25)%Z ->
  n_sections (E:=E) data rows = Ok (Z.of_nat (List.length data) / rows + 1)%Z.
Proof.
  intros Hrows Hn. unfold n_sections. apply section_count_exact; lia.
Qed.

(** For a negative bound the count is at most one, and one only for an
    empty input. *)
Lemma n_sections_negative (data : list Row) (rows : Z) :
  (- 2 ^ 25 < rows < 0)%Z ->
  (Z.of_nat (List.length data) < 2 ^ 25)%Z ->
  exists k, n_sections (E:=E) data rows = Ok k /\ (k <= 1)%Z /\
            (data <> [] -> (k <= 0)%Z).
Proof.
  intros Hrows Hn. unfold n_sections.
  destruct data as [|r data].
  - exists 1%Z. cbn [List.length Z.of_nat].
    rewrite section_count_no_rows.
    + split; [reflexivity|]. split; [lia | congruence].
    + lia.
    + assert (2 ^ 25 < 2 ^ 1000)%Z by reflexivity. lia.
  - destruct (section_count_negative (E:=E) (Z.of_nat (List.length (r :: data)))
                rows) as (k & Hk & Hle); [cbn [List.length] in *; lia | lia |].
    exists k. split; [exact Hk|]. split; lia.
Qed.

Lemma split_step_positive (data : list Row) (rows : Z) :
  (0 < rows < 2 ^ 25)%Z ->
  (Z.of_nat (List.length data) < 2 ^ 25)%Z ->
  split_step (E:=E) data rows = Ok (chunks_by (sizes_of (List.length data) rows) data).
Proof.
  intros Hrows Hn. unfold split_step.
  rewrite n_sections_positive by assumption.
  apply array_split_chunks.
  pose proof (Z.div_pos (Z.of_nat (List.length data)) rows ltac:(lia) ltac:(lia)).
  lia.
Qed.

Lemma sections_count_positive (n : nat) (rows : Z) :
  (0 < rows)%Z -> 0 < Z.to_nat (Z.of_nat n / rows + 1).
Proof.
  intros Hrows.
  pose proof (Z.div_pos (Z.of_nat n) rows ltac:(lia) Hrows). lia.
Qed.

Lemma sizes_of_sum (n : nat) (rows : Z) :
  (0 < rows)%Z -> list_sum (sizes_of n rows) = n.
Proof.
  intros Hrows. apply section_sizes_sum, sections_count_positive, Hrows.
Qed.

Lemma sizes_of_length (n : nat) (rows : Z) :
  (0 < rows)%Z ->
  List.length (sizes_of n rows) = Z.to_nat (Z.of_nat n / rows + 1).
Proof.
  intros Hrows. apply section_sizes_length, sections_count_positive, Hrows.
Qed.

(** Every section size is within the bound. *)
Lemma sizes_of_bounded (n : nat) (rows : Z) :
  (0 < rows)%Z ->
  Forall (fun s => (Z.of_nat s <= rows)%Z) (sizes_of n rows).
Proof.
  intros Hrows. unfold sizes_of.
  set (k := Z.to_nat (Z.of_nat n / rows + 1)).
  assert (Hk : 0 < k) by (apply sections_count_positive, Hrows).
  assert (Hbound : (Z.of_nat (n / k + 1) <= rows)%Z).
  { assert (Hlt : (Z.of_nat n < rows * Z.of_nat k)%Z).
    { subst k. rewrite Z2Nat.id
        by (pose proof (Z.div_pos (Z.of_nat n) rows ltac:(lia) Hrows); lia).
      pose proof (Z.mul_succ_div_gt (Z.of_nat n) rows Hrows). lia. }
    pose proof (Nat.div_mod_eq n k) as Hd.
    assert (Hq : (Z.of_nat (n / k) < rows)%Z) by nia.
    lia. }
  apply Forall_app; split; apply Forall_forall; intros s Hs;
    apply repeat_spec in Hs; subst s; lia.
Qed.

(** Whatever sections [array_split] returns, they concatenate to the array. *)
Lemma array_split_concat (ary : list Row) (k : Z) (chunks : list (list Row)) :
  array_split (E:=E) ary k = Ok chunks -> List.concat chunks = ary.
Proof.
  intros Hsplit.
  destruct (Z.le_gt_cases k 0) as [Hle|Hgt].
  - rewrite array_split_nonpositive in Hsplit by assumption. discriminate.
  - rewrite array_split_chunks in Hsplit by lia.
    injection Hsplit as <-.
    rewrite concat_chunks_by, section_sizes_sum by lia.
    apply firstn_all.
Qed.

Lemma array_split_length (ary : list Row) (k : Z) (chunks : list (list Row)) :
  array_split (E:=E) ary k = Ok chunks -> List.length chunks = Z.to_nat k.
Proof.
  intros Hsplit.
  destruct (Z.le_gt_cases k 0) as [Hle|Hgt].
  - rewrite array_split_nonpositive in Hsplit by assumption. discriminate.
  - rewrite array_split_chunks in Hsplit by lia.
    injection Hsplit as <-.
    rewrite <- (length_map (@List.length Row)), length_chunks_by.
    + apply section_sizes_length. lia.
    + rewrite section_sizes_sum by lia. reflexivity.
Qed.

(** The lengths of the sections, for any positive count. *)
Lemma array_split_lengths (ary : list Row) (k : Z) (chunks : list (list Row)) :
  array_split (E:=E) ary k = Ok chunks ->
  (0 < k)%Z
  /\ map (@List.length Row) chunks
     = repeat (List.length ary / Z.to_nat k + 1) (List.length ary mod Z.to_nat k)
       ++ repeat (List.length ary / Z.to_nat k)
                 (Z.to_nat k - List.length ary mod Z.to_nat k).
Proof.
  intros Hsplit.
  destruct (Z.le_gt_cases k 0) as [Hle|Hgt].
  - rewrite array_split_nonpositive in Hsplit by assumption. discriminate.
  - split; [lia|].
    rewrite array_split_chunks in Hsplit by lia. injection Hsplit as <-.
    apply length_chunks_by. rewrite section_sizes_sum by lia. reflexivity.
Qed.

Lemma chunks_by_bounded (sizes : list nat) (l : list Row) (b : Z) :
  Forall (fun s => (Z.of_nat s <= b)%Z) sizes ->
  Forall (fun c => (Z.of_nat (List.length c) <= b)%Z) (chunks_by sizes l).
Proof.
  intros Hsizes. revert l.
  induction Hsizes as [|s sizes Hs _ IH]; intros l; cbn [chunks_by];
    constructor; auto.
  rewrite length_firstn. lia.
Qed.

Lemma split_step_concat (data : list Row) (rows : Z) chunks :
  split_step (E:=E) data rows = Ok chunks -> List.concat chunks = data.
Proof.
  unfold split_step.
  destruct (n_sections data rows) as [k|e]; [|discriminate].
  apply array_split_concat.
Qed.

(** C2.  The split step of [predict] loses nothing and keeps the order:
    whenever [np.array_split(data, int(data.shape[0] / float(rows) + 1))]
    returns sections, their concatenation in order is exactly [data], so no
    row is dropped, repeated or moved. *)
Theorem split_step_is_partition (data : list Row) (rows : Z)
        (chunks : list (list Row)) :
  split_step (E:=E) data rows = Ok chunks -> List.concat chunks = data.
Proof. apply split_step_concat. Qed.

Lemma split_sections_bounded (data : list Row) (rows : Z) :
  (0 < rows)%Z ->
  Forall (fun c => (Z.of_nat (List.length c) <= rows)%Z)
         (chunks_by (sizes_of (List.length data) rows) data).
Proof. intros Hrows. apply chunks_by_bounded, sizes_of_bounded, Hrows. Qed.

Lemma chunks_by_app (s1 s2 : list nat) (l : list Row) :
  chunks_by (s1 ++ s2) l
  = chunks_by s1 l ++ chunks_by s2 (skipn (list_sum s1) l).
Proof.
  revert l. induction s1 as [|s s1 IH]; intros l; [reflexivity|].
  change (list_sum (s :: s1)) with (s + list_sum s1).
  cbn [app chunks_by]. rewrite IH, skipn_skipn.
  rewrite (Nat.add_comm (list_sum s1) s). reflexivity.
Qed.

Lemma chunks_with_rows (sizes : list nat) (l : list Row) :
  list_sum sizes <= List.length l ->
  Forall (fun s => 1 <= s) sizes ->
  Forall (fun c => c <> []) (chunks_by sizes l).
Proof.
  intros Hsum Hpos.
  pose proof (length_chunks_by sizes l Hsum) as Hlen.
  rewrite <- Hlen in Hpos.
  rewrite Forall_forall in Hpos. apply Forall_forall. intros c Hc ->.
  specialize (Hpos 0 (in_map (@List.length Row) _ _ Hc)). lia.
Qed.

(** The sections of the split step all have rows, except that one empty
    section comes last when there are more sections than rows (no rows at
    all, or [rows = 1]). *)
Lemma split_sections_shape (data : list Row) (rows : Z) :
  (0 < rows)%Z ->
  let chunks := chunks_by (sizes_of (List.length data) rows) data in
  Forall (fun c => c <> []) chunks
  \/ exists Ns, chunks = Ns ++ [[]] /\ Forall (fun c => c <> []) Ns.
Proof.
  intros Hrows chunks. subst chunks.
  pose proof (sizes_of_sum (List.length data) rows Hrows) as Hsum.
  unfold sizes_of in *.
  set (n := List.length data) in *.
  set (k := Z.to_nat (Z.of_nat n / rows + 1)) in *.
  assert (Hk : 0 < k) by (apply sections_count_positive, Hrows).
  assert (Hkn : k <= n + 1).
  { subst k. pose proof (Z.div_pos (Z.of_nat n) rows ltac:(lia) Hrows).
    assert (Z.of_nat n / rows <= Z.of_nat n)%Z
      by (apply Z.div_le_upper_bound; nia).
    lia. }
  destruct (n / k) as [|each] eqn:Heach.
  - right.
    apply Nat.div_small_iff in Heach; [|lia].
    rewrite (Nat.mod_small n k Heach) in *.
    replace (k - n) with 1 in * by lia.
    cbn [repeat] in *. rewrite chunks_by_app.
    exists (chunks_by (repeat (0 + 1) n) data). split; [reflexivity|].
    rewrite list_sum_app in Hsum.
    apply chunks_with_rows; [subst n; lia|].
    apply Forall_forall. intros s Hs. apply repeat_spec in Hs. lia.
  - left. apply chunks_with_rows; [subst n; lia|].
    apply Forall_app; split; apply Forall_forall; intros s Hs;
      apply repeat_spec in Hs; lia.
Qed.

(** With at least one row and a bound of two or more, there are no more
    sections than rows and every section has rows. *)
Lemma split_sections_with_rows (data : list Row) (rows : Z) :
  (2 <= rows)%Z -> data <> [] ->
  Forall (fun c => c <> []) (chunks_by (sizes_of (List.length data) rows) data).
Proof.
  intros Hrows Hdata.
  pose proof (sizes_of_sum (List.length data) rows ltac:(lia)) as Hsum.
  apply chunks_with_rows; [lia|].
  unfold sizes_of in *.
  set (n := List.length data) in *.
  set (k := Z.to_nat (Z.of_nat n / rows + 1)) in *.
  assert (Hn : 1 <= n) by (subst n; destruct data; [congruence | cbn; lia]).
  assert (Hk : 0 < k) by (apply sections_count_positive; lia).
  assert (Hkn : k <= n).
  { subst k.
    pose proof (Z.div_lt (Z.of_nat n) rows ltac:(lia) ltac:(lia)).
    pose proof (Z.div_pos (Z.of_nat n) rows ltac:(lia) ltac:(lia)). lia. }
  assert (Hq : 1 <= n / k) by (apply Nat.div_le_lower_bound; lia).
  apply Forall_app; split; apply Forall_forall; intros s Hs;
    apply repeat_spec in Hs; lia.
Qed.

(** Below 2^25 the split step returns sections within the bound. *)
Lemma split_step_bounded (data : list Row) (rows : Z) :
  (0 < rows < 2 ^ 25)%Z ->
  (Z.of_nat (List.length data) < 2 ^ 25)%Z ->
  exists chunks,
    split_step (E:=E) data rows = Ok chunks
    /\ Forall (fun c => (Z.of_nat (List.length c) <= rows)%Z) chunks.
Proof.
  intros Hrows Hn.
  exists (chunks_by (sizes_of (List.length data) rows) data).
  split; [apply split_step_positive; assumption|].
  apply split_sections_bounded. lia.
Qed.

End Split.

(** Seven rows and at most three per request: three sections of sizes
    3, 2 and 2. *)
Example split_step_seven_by_three :
  split_step (E:=unit) [1; 2; 3; 4; 5; 6; 7] 3 = Ok [[1; 2; 3]; [4; 5]; [6; 7]].
Proof. reflexivity. Qed.

(** Six rows and at most three per request: three sections, not two. *)
Example split_step_six_by_three :
  split_step (E:=unit) [1; 2; 3; 4; 5; 6] 3 = Ok [[1; 2]; [3; 4]; [5; 6]].
Proof. reflexivity. Qed.

Lemma split_step_is_partition_witness :
  split_step (E:=unit) [1; 2; 3; 4; 5; 6; 7] 3 = Ok [[1; 2; 3]; [4; 5]; [6; 7]]
  /\ List.concat [[1; 2; 3]; [4; 5]; [6; 7]] = [1; 2; 3; 4; 5; 6; 7].
Proof.
  split; [reflexivity|].
  apply (split_step_is_partition (E:=unit) [1; 2; 3; 4; 5; 6; 7] 3
           [[1; 2; 3]; [4; 5]; [6; 7]]).
  reflexivity.
Defined.

(** ** Beyond 2^53

    Row counts and bounds above 2^53 are not binary64 numbers, and the
    rounded quotient may fall short of the integer quotient.  With
    [3 * 2^53 + 10] rows and the bound [2^53 + 3] the count is 3, where
    the integer quotient plus one is 4; with a bound larger than the
    largest float the conversion raises. *)
Example section_count_large :
  section_count (E:=unit) (3 * 2 ^ 53 + 10) (2 ^ 53 + 3) = Ok 3%Z
  /\ ((3 * 2 ^ 53 + 10) / (2 ^ 53 + 3) + 1 = 4)%Z.
Proof. split; vm_compute; reflexivity. Qed.

Example section_count_just_below :
  section_count (E:=unit) (2 ^ 53 - 1) (2 ^ 53) = Ok 2%Z
  /\ ((2 ^ 53 - 1) / 2 ^ 53 + 1 = 1)%Z.
Proof. split; vm_compute; reflexivity. Qed.

Example section_count_overflow :
  section_count (E:=unit) 3 (10 ^ 400) = Raise OverflowError.
Proof. vm_compute. reflexivity. Qed.

(** Negative bounds: the count is computed, and need not be negative. *)
Example section_count_tiny_quotient :
  section_count (E:=unit) 1 (- 10 ^ 17) = Ok 1%Z
  /\ section_count (E:=unit) 3 (-2) = Ok 0%Z
  /\ section_count (E:=unit) 0 (-2) = Ok 1%Z.
Proof. repeat split; vm_compute; reflexivity. Qed.


End SplitFacts.

(* ================================================================== *)
(** * Runs of [predict]: the requests it issues *)
(* ================================================================== *)

Module RunFacts.
Import Python Numpy Churn NumpyFacts FloatFacts SplitFacts.

Section Run.
Context {Row Score World E : Type}.
Variable invoke : World -> list Row -> World * (E + string).
Variable fromstr : string -> option (Score * string).

Lemma xgb_predictor_predict_ok (c : list Row) (st : state) w body :
  invoke (world st) c = (w, inr body) ->
  xgb_predictor_predict invoke c st
  = (Ok body, mkState w (trace st ++ [Request c; Response body])).
Proof. intros H. unfold xgb_predictor_predict. rewrite H. reflexivity. Qed.

Lemma xgb_predictor_predict_fault (c : list Row) (st : state) w e :
  invoke (world st) c = (w, inl e) ->
  xgb_predictor_predict invoke c st
  = (Raise (Remote e), mkState w (trace st ++ [Request c; Fault e])).
Proof. intros H. unfold xgb_predictor_predict. rewrite H. reflexivity. Qed.

(** A call to the endpoint either returns a reply or raises what the
    endpoint raised; either way it adds one request and its outcome to
    the trace. *)
Lemma xgb_predictor_predict_cases (c : list Row) (st : state) :
  (exists w body,
      invoke (world st) c = (w, inr body)
      /\ xgb_predictor_predict invoke c st
         = (Ok body, mkState w (trace st ++ [Request c; Response body])))
  \/ (exists w e,
      invoke (world st) c = (w, inl e)
      /\ xgb_predictor_predict invoke c st
         = (Raise (Remote e), mkState w (trace st ++ [Request c; Fault e]))).
Proof.
  destruct (invoke (world st) c) as [w [e|body]] eqn:Hinv.
  - right. exists w, e. split; [reflexivity|].
    apply xgb_predictor_predict_fault, Hinv.
  - left. exists w, body. split; [reflexivity|].
    apply xgb_predictor_predict_ok, Hinv.
Qed.

Lemma xgb_predictor_predict_inv (c : list Row) (st st' : state) body :
  xgb_predictor_predict invoke c st = (Ok body, st') ->
  st' = mkState (fst (invoke (world st) c))
                (trace st ++ [Request c; Response body]).
Proof.
  unfold xgb_predictor_predict.
  destruct (invoke (world st) c) as [w [e|b]]; intros H; inversion H; subst.
  reflexivity.
Qed.

Lemma for_loop_cons_ok (c : list Row) rest acc st body st' :
  xgb_predictor_predict invoke c st = (Ok body, st') ->
  for_loop invoke (c :: rest) acc st
  = for_loop invoke rest (join "," [acc; body]) st'.
Proof.
  intros H. cbn [for_loop]. unfold bind, loop_body, bind. rewrite H.
  reflexivity.
Qed.

Lemma for_loop_cons_fault (c : list Row) rest acc st e st' :
  xgb_predictor_predict invoke c st = (Raise e, st') ->
  for_loop invoke (c :: rest) acc st = (Raise e, st').
Proof.
  intros H. cbn [for_loop]. unfold bind, loop_body, bind. rewrite H.
  reflexivity.
Qed.

Lemma exchanges_snoc (cs : list (list Row)) (bodies : list string) c b :
  List.length bodies = List.length cs ->
  exchanges (E:=E) (cs ++ [c]) (bodies ++ [b])
  = exchanges cs bodies ++ [Request c; Response b].
Proof.
  revert bodies. induction cs as [|c0 cs IH]; intros [|b0 bodies] Hlen;
    try discriminate; [reflexivity|].
  cbn [app exchanges]. rewrite IH by (cbn in Hlen; lia). reflexivity.
Qed.

Lemma accumulated_snoc (acc : string) (bodies : list string) (b : string) :
  accumulated acc (bodies ++ [b]) = join "," [accumulated acc bodies; b].
Proof.
  revert acc. induction bodies as [|b0 bodies IH]; intros acc; [reflexivity|].
  cbn [app accumulated]. apply IH.
Qed.

Lemma requests_app (t1 t2 : list (event (Row:=Row) (E:=E))) :
  requests (t1 ++ t2) = requests t1 ++ requests t2.
Proof.
  induction t1 as [|[a|b|e] t1 IH]; cbn [app requests];
    [reflexivity | rewrite IH; reflexivity | exact IH | exact IH].
Qed.

Lemma requests_exchanges (cs : list (list Row)) (bodies : list string) :
  List.length bodies = List.length cs ->
  requests (exchanges (E:=E) cs bodies) = cs.
Proof.
  revert bodies. induction cs as [|c cs IH]; intros [|b bodies] Hlen;
    try discriminate; [reflexivity|].
  cbn [exchanges requests]. rewrite IH by (cbn in Hlen; lia). reflexivity.
Qed.

Lemma sequential_exchanges (cs : list (list Row)) (bodies : list string)
      (t : list (event (Row:=Row) (E:=E))) :
  sequential false (exchanges cs bodies ++ t) = sequential false t.
Proof.
  revert bodies. induction cs as [|c cs IH]; intros [|b bodies];
    try reflexivity.
  cbn [exchanges app sequential negb andb]. apply IH.
Qed.

(** In a sequential trace at most one request is outstanding after any
    number of events. *)
Lemma sequential_outstanding (t : list (event (Row:=Row) (E:=E))) (w : bool) :
  sequential w t = true ->
  forall p q, t = p ++ q -> (0 <= Z.b2z w + outstanding p <= 1)%Z.
Proof.
  revert w. induction t as [|ev t IH]; intros w Hseq p q Hsplit.
  - symmetry in Hsplit. apply app_eq_nil in Hsplit as [-> _].
    destruct w; cbn; lia.
  - destruct p as [|ev' p]; [destruct w; cbn; lia|].
    cbn [app] in Hsplit. injection Hsplit as <- Ht.
    destruct ev as [a|b|e]; cbn [sequential] in Hseq;
      apply andb_prop in Hseq as [Hw Hseq]; destruct w; try discriminate;
      specialize (IH _ Hseq p q Ht); cbn [outstanding Z.b2z] in *; lia.
Qed.

(** The endpoint never raising, the loop runs to its end. *)
Lemma for_loop_returns (cs : list (list Row)) (acc : string) (st : state) :
  (forall w c, exists w' body, invoke w c = (w', inr body)) ->
  exists acc' st', for_loop invoke cs acc st = (Ok acc', st').
Proof.
  intros Hup. revert acc st. induction cs as [|c cs IH]; intros acc st.
  - exists acc, st. reflexivity.
  - destruct (Hup (world st) c) as (w & body & Hinv).
    rewrite (for_loop_cons_ok c cs acc st _ _
               (xgb_predictor_predict_ok c st w body Hinv)).
    apply IH.
Qed.

(** The loop-head invariant.  At the head of the loop the chunks done
    and the chunks to do make up the list; the trace holds one exchange
    per chunk done, in order and each with its reply; [predictions] holds
    exactly those replies; and the run of the whole loop is the run of the
    rest of it from here. *)
Lemma loop_head_invariant (chunks : list (list Row)) (st0 : state)
      pending acc st :
  loop_head invoke chunks st0 pending acc st ->
  exists done bodies,
    chunks = done ++ pending
    /\ List.length bodies = List.length done
    /\ trace st = trace st0 ++ exchanges done bodies
    /\ acc = accumulated EmptyString bodies
    /\ for_loop invoke chunks EmptyString st0 = for_loop invoke pending acc st.
Proof.
  induction 1 as [|c rest acc st body st' Hhead IH Hcall].
  - exists [], []. cbn [app exchanges accumulated List.length].
    rewrite app_nil_r. repeat split; reflexivity.
  - destruct IH as (done & bodies & Hchunks & Hlen & Htrace & Hacc & Hrun).
    exists (done ++ [c]), (bodies ++ [body]).
    rewrite <- app_assoc. cbn [app].
    split; [exact Hchunks|].
    split; [rewrite !length_app; cbn; lia|].
    split.
    + rewrite (xgb_predictor_predict_inv _ _ _ _ Hcall). cbn [trace].
      rewrite Htrace, exchanges_snoc by assumption.
      rewrite app_assoc. reflexivity.
    + split.
      * rewrite accumulated_snoc, Hacc. reflexivity.
      * rewrite Hrun. apply for_loop_cons_ok, Hcall.
Qed.

(** Every run of the loop: either all chunks were exchanged, or the
    exchanges stop at the first chunk whose call raised. *)
Lemma for_loop_outcome (cs : list (list Row)) (acc : string) (st : state) :
  (exists bodies st',
      List.length bodies = List.length cs
      /\ for_loop invoke cs acc st = (Ok (accumulated acc bodies), st')
      /\ trace st' = trace st ++ exchanges cs bodies)
  \/ (exists pre c post bodies e st',
      cs = pre ++ c :: post
      /\ List.length bodies = List.length pre
      /\ for_loop invoke cs acc st = (Raise (Remote e), st')
      /\ trace st' = trace st ++ exchanges pre bodies ++ [Request c; Fault e]).
Proof.
  revert acc st. induction cs as [|c cs IH]; intros acc st.
  - left. exists [], st. cbn. rewrite app_nil_r. repeat split; reflexivity.
  - destruct (xgb_predictor_predict_cases c st)
      as [(w & body & _ & Hcall)|(w & e & _ & Hcall)].
    + rewrite (for_loop_cons_ok _ _ _ _ _ _ Hcall).
      destruct (IH (join "," [acc; body])
                   (mkState w (trace st ++ [Request c; Response body])))
        as [(bodies & st' & Hlen & Hrun & Htrace)
           |(pre & c' & post & bodies & e & st' & Hcs & Hlen & Hrun & Htrace)].
      * left. exists (body :: bodies), st'.
        split; [cbn; lia|]. split; [exact Hrun|].
        rewrite Htrace. cbn [trace exchanges]. rewrite <- app_assoc.
        reflexivity.
      * right. exists (c :: pre), c', post, (body :: bodies), e, st'.
        split; [rewrite Hcs; reflexivity|].
        split; [cbn; lia|]. split; [exact Hrun|].
        rewrite Htrace. cbn [trace exchanges]. rewrite <- app_assoc.
        reflexivity.
    + right. exists [], c, cs, [], e, (mkState w (trace st ++ [Request c; Fault e])).
      split; [reflexivity|]. split; [reflexivity|].
      split; [apply for_loop_cons_fault, Hcall|]. reflexivity.
Qed.

Lemma predict_after_split (data : list Row) (rows : Z) (st0 : state) chunks :
  split_step (E:=E) data rows = Ok chunks ->
  predict invoke fromstr data rows st0
  = bind (for_loop invoke chunks EmptyString) (finish fromstr) st0.
Proof. intros H. unfold predict, bind at 1, lift. rewrite H. reflexivity. Qed.

Lemma predict_split_raises (data : list Row) (rows : Z) (st0 : state) e :
  split_step (E:=E) data rows = Raise e ->
  predict invoke fromstr data rows st0 = (Raise e, st0).
Proof. intros H. unfold predict, bind at 1, lift. rewrite H. reflexivity. Qed.

Lemma firstn_through (pre post : list (list Row)) (c : list Row) :
  firstn (List.length pre + 1) (pre ++ c :: post) = pre ++ [c].
Proof.
  rewrite firstn_app, firstn_all2 by lia.
  replace (List.length pre + 1 - List.length pre) with 1 by lia.
  reflexivity.
Qed.

(** Every run of [predict] adds to the trace a sequential run of
    exchanges whose requests are the first [k] sections in order; [k] is
    the number of sections when [predict] returns, and less or equal
    otherwise. *)
Lemma predict_trace (data : list Row) (rows : Z) (st0 : state) :
  exists t,
    trace (snd (predict invoke fromstr data rows st0)) = trace st0 ++ t
    /\ sequential false t = true
    /\ (forall e, split_step (E:=E) data rows = Raise e -> t = [])
    /\ (forall chunks,
          split_step (E:=E) data rows = Ok chunks ->
          exists k,
            requests t = firstn k chunks
            /\ k <= List.length chunks
            /\ (chunks <> [] -> 1 <= k)
            /\ (is_ok (fst (predict invoke fromstr data rows st0)) = true ->
                k = List.length chunks)).
Proof.
  destruct (split_step (E:=E) data rows) as [chunks|e] eqn:Hsplit.
  - rewrite (predict_after_split _ _ _ _ Hsplit). unfold bind.
    destruct (for_loop_outcome chunks EmptyString st0)
      as [(bodies & st' & Hlen & Hrun & Htrace)
         |(pre & c & post & bodies & e & st' & Hcs & Hlen & Hrun & Htrace)];
      rewrite Hrun; cbn [snd fst finish ret is_ok].
    + exists (exchanges chunks bodies).
      split; [exact Htrace|].
      split; [rewrite <- (app_nil_r (exchanges _ _)), sequential_exchanges;
              reflexivity|].
      split; [discriminate|].
      intros chunks' [= <-]. exists (List.length chunks).
      rewrite requests_exchanges, firstn_all by assumption.
      split; [reflexivity|]. split; [lia|].
      split; [destruct chunks; [congruence | cbn; lia] | reflexivity].
    + exists (exchanges pre bodies ++ [Request c; Fault e]).
      split; [exact Htrace|].
      split; [rewrite sequential_exchanges; reflexivity|].
      split; [discriminate|].
      intros chunks' [= <-]. exists (List.length pre + 1).
      rewrite requests_app, requests_exchanges by assumption.
      rewrite Hcs, firstn_through. cbn [requests].
      split; [reflexivity|].
      split; [rewrite length_app; cbn; lia|].
      split; [lia | discriminate].
  - rewrite (predict_split_raises _ _ _ _ Hsplit). exists [].
    cbn [snd]. rewrite app_nil_r.
    split; [reflexivity|]. split; [reflexivity|].
    split; [reflexivity | discriminate].
Qed.

(** C7.  If the call for a chunk raises, [predict] raises the same
    exception: the run up to that chunk (its head configuration
    [(c :: post, acc, st)]) is followed by the one request for [c], its
    fault, and nothing more.  The result is the exception, not a score
    sequence; the requests issued are those for the chunks before [c] and
    one for [c] (no second try), none for the chunks after it. *)
Theorem predict_propagates_failure
        (data : list Row) (rows : Z) (st0 : state)
        (chunks : list (list Row)) (c : list Row) (post : list (list Row))
        (acc : string) (st : state) (w : World) (e : E) :
  split_step (E:=E) data rows = Ok chunks ->
  loop_head invoke chunks st0 (c :: post) acc st ->
  invoke (world st) c = (w, inl e) ->
  predict invoke fromstr data rows st0
  = (Raise (Remote e), mkState w (trace st ++ [Request c; Fault e]))
  /\ exists pre,
       chunks = pre ++ c :: post
       /\ requests (trace st ++ [Request c; Fault e])
          = requests (trace st0) ++ pre ++ [c].
Proof.
  intros Hsplit Hhead Hinv.
  destruct (loop_head_invariant _ _ _ _ _ Hhead)
    as (pre & bodies & Hchunks & Hlen & Htrace & _ & Hrun).
  split.
  - rewrite (predict_after_split _ _ _ _ Hsplit). unfold bind.
    rewrite Hrun.
    rewrite (for_loop_cons_fault c post acc st _ _
               (xgb_predictor_predict_fault c st w e Hinv)).
    reflexivity.
  - exists pre. split; [exact Hchunks|].
    rewrite Htrace, !requests_app, requests_exchanges by assumption.
    rewrite <- app_assoc. reflexivity.
Qed.

(** C8.  [predict] talks to the endpoint one request at a time and in
    the order of the chunks.  (1) The events a run adds to the trace
    alternate between a request and its outcome, so that after any number
    of them at most one request is outstanding, and the requests are an
    initial segment of the chunk list.  (2) At every head of the loop,
    that is whenever the next request is about to be issued, the trace
    ends with the reply to the previous chunk, all replies so far are
    already joined into [predictions], and the rest of the run starts
    from there. *)
Theorem predict_requests_sequential
        (data : list Row) (rows : Z) (st0 : state) :
  (exists t,
      trace (snd (predict invoke fromstr data rows st0)) = trace st0 ++ t
      /\ sequential false t = true
      /\ (forall p q, t = p ++ q -> (0 <= outstanding p <= 1)%Z)
      /\ forall chunks,
           split_step (E:=E) data rows = Ok chunks ->
           exists k, requests t = firstn k chunks)
  /\ (forall chunks pending acc st,
        split_step (E:=E) data rows = Ok chunks ->
        loop_head invoke chunks st0 pending acc st ->
        exists done bodies,
          chunks = done ++ pending
          /\ List.length bodies = List.length done
          /\ trace st = trace st0 ++ exchanges done bodies
          /\ acc = accumulated EmptyString bodies
          /\ predict invoke fromstr data rows st0
             = bind (for_loop invoke pending acc) (finish fromstr) st).
Proof.
  split.
  - destruct (predict_trace data rows st0) as (t & Htrace & Hseq & _ & Hreq).
    exists t. split; [exact Htrace|]. split; [exact Hseq|].
    split; [intros p q Ht; apply (sequential_outstanding t false Hseq p q Ht)|].
    intros chunks Hsplit.
    destruct (Hreq chunks Hsplit) as (k & Hk & _). exists k. exact Hk.
  - intros chunks pending acc st Hsplit Hhead.
    destruct (loop_head_invariant _ _ _ _ _ Hhead)
      as (done & bodies & Hchunks & Hlen & Htrace & Hacc & Hrun).
    exists done, bodies. repeat (split; [assumption|]).
    rewrite (predict_after_split _ _ _ _ Hsplit). unfold bind.
    rewrite Hrun. reflexivity.
Qed.

(** For fewer than 2^25 rows and a positive bound [rows] below 2^25, the
    split step of [predict] returns sections of at most [rows] rows each,
    and in every run every array that [predict] hands to the predictor
    has at most [rows] rows, whatever the predictor. *)
Lemma predict_calls_bounded (data : list Row) (rows : Z) (st0 : state) :
  (0 < rows < 2 ^ 25)%Z ->
  (Z.of_nat (List.length data) < 2 ^ 25)%Z ->
  exists chunks t,
    split_step (E:=E) data rows = Ok chunks
    /\ Forall (fun c => (Z.of_nat (List.length c) <= rows)%Z) chunks
    /\ trace (snd (predict invoke fromstr data rows st0)) = trace st0 ++ t
    /\ Forall (fun c => (Z.of_nat (List.length c) <= rows)%Z) (requests t).
Proof.
  intros Hrows Hn.
  destruct (split_step_bounded (E:=E) data rows Hrows Hn)
    as (chunks & Hsplit & Hall).
  destruct (predict_trace data rows st0) as (t & Htrace & _ & _ & Hreq).
  destruct (Hreq chunks Hsplit) as (k & Hk & _).
  exists chunks, t. repeat (split; [assumption|]).
  rewrite Hk. apply Forall_forall. intros c Hc.
  rewrite Forall_forall in Hall. apply Hall.
  rewrite <- (firstn_skipn k chunks). apply in_or_app. left. exact Hc.
Qed.


End Run.

End RunFacts.

(* ================================================================== *)
(** * Reassembling the scores *)
(* ================================================================== *)

Module StringFacts.
Import Python.
Local Open Scope string_scope.

Lemma append_nil_r (s : string) : s ++ "" = s.
Proof. induction s as [|c s IH]; cbn; [reflexivity | rewrite IH; reflexivity]. Qed.

Lemma append_assoc (s1 s2 s3 : string) : (s1 ++ s2) ++ s3 = s1 ++ s2 ++ s3.
Proof. induction s1 as [|c s1 IH]; cbn; [reflexivity | rewrite IH; reflexivity]. Qed.

Lemma length_append (s1 s2 : string) :
  String.length (s1 ++ s2) = String.length s1 + String.length s2.
Proof. induction s1 as [|c s1 IH]; cbn; [reflexivity | rewrite IH; reflexivity]. Qed.

Lemma join_cons2 (sep x y : string) (l : list string) :
  join sep (x :: y :: l) = x ++ sep ++ join sep (y :: l).
Proof. reflexivity. Qed.

(** [join] over an append of two lists that are not empty. *)
Lemma join_app (sep : string) (l1 l2 : list string) :
  l1 <> [] -> l2 <> [] ->
  join sep (l1 ++ l2)%list = join sep l1 ++ sep ++ join sep l2.
Proof.
  intros H1 H2. induction l1 as [|x l1 IH]; [congruence|].
  destruct l1 as [|y l1].
  - destruct l2 as [|z l2]; [congruence|]. reflexivity.
  - change ((x :: y :: l1) ++ l2)%list with (x :: y :: (l1 ++ l2))%list.
    rewrite !join_cons2.
    change (y :: (l1 ++ l2))%list with ((y :: l1) ++ l2)%list.
    rewrite IH by discriminate. rewrite !append_assoc. reflexivity.
Qed.

End StringFacts.

(* ================================================================== *)
(** * Runs of [predict] with the predictor of the notebook *)
(* ================================================================== *)

Module ClientFacts.
Import Python Numpy Churn NumpyFacts SplitFacts RunFacts.

Section Client.
Context {Row Score World E : Type}.
Variable endpoint : World -> list Row -> World * (E + string).
Variable fromstr : string -> option (Score * string).

Lemma csv_client_posted (w : World * list (list Row)) (c : list Row) :
  posted (fst (csv_client endpoint w c))
  = posted w ++ (if has_rows c then [c] else []).
Proof.
  destruct c as [|r c]; cbn [csv_client has_rows].
  - cbn [fst]. rewrite app_nil_r. reflexivity.
  - destruct (endpoint (fst w) (r :: c)) as [w' [e|body]]; reflexivity.
Qed.

(** A call with rows reaches the endpoint and comes back with its
    answer. *)
Lemma csv_client_answer (w : World * list (list Row)) (c : list Row)
      (w' : World) (body : string) :
  c <> [] -> endpoint (fst w) c = (w', inr body) ->
  csv_client endpoint w c = ((w', snd w ++ [c]), inr body).
Proof.
  intros Hc Hend. destruct c as [|r c]; [congruence|].
  cbn [csv_client]. rewrite Hend. reflexivity.
Qed.

Lemma filter_has_rows (l : list (list Row)) :
  Forall (fun c => c <> []) l -> filter has_rows l = l.
Proof.
  induction 1 as [|c l Hc _ IH]; [reflexivity|].
  cbn [filter]. destruct c; [congruence|]. cbn [has_rows]. rewrite IH.
  reflexivity.
Qed.

(** What the loop posts: the arrays with rows among those it called the
    predictor with. *)
Lemma for_loop_posted (cs : list (list Row)) (acc : string)
      (st : state (E:=client_error E)) :
  exists t,
    trace (snd (for_loop (csv_client endpoint) cs acc st)) = trace st ++ t
    /\ posted (world (snd (for_loop (csv_client endpoint) cs acc st)))
       = posted (world st) ++ filter has_rows (requests t).
Proof.
  revert acc st. induction cs as [|c cs IH]; intros acc st.
  - exists []. cbn. rewrite !app_nil_r. split; reflexivity.
  - pose proof (csv_client_posted (world st) c) as Hposted.
    destruct (xgb_predictor_predict_cases (csv_client endpoint) c st)
      as [(w & body & Hinv & Hcall)|(w & e & Hinv & Hcall)];
      rewrite Hinv in Hposted; cbn [fst] in Hposted.
    + rewrite (for_loop_cons_ok _ _ _ _ _ _ _ Hcall).
      destruct (IH (join "," [acc; body])
                   (mkState w (trace st ++ [Request c; Response body])))
        as (t & Htrace & Hpost).
      exists ([Request c; Response body] ++ t).
      rewrite Htrace, Hpost. cbn [trace world].
      split; [rewrite <- app_assoc; reflexivity|].
      rewrite Hposted, <- app_assoc. f_equal.
      cbn [app requests filter]. destruct (has_rows c); reflexivity.
    + rewrite (for_loop_cons_fault _ _ _ _ _ _ _ Hcall).
      exists [Request c; Fault e]. cbn [snd trace world].
      split; [reflexivity|].
      rewrite Hposted. cbn [requests filter].
      destruct (has_rows c); reflexivity.
Qed.

Lemma predict_posted (data : list Row) (rows : Z)
      (st0 : state (E:=client_error E)) :
  exists t,
    trace (snd (predict (csv_client endpoint) fromstr data rows st0))
    = trace st0 ++ t
    /\ posted (world (snd (predict (csv_client endpoint) fromstr data rows st0)))
       = posted (world st0) ++ filter has_rows (requests t).
Proof.
  destruct (split_step (E:=client_error E) data rows) as [chunks|e] eqn:Hsplit.
  - rewrite (predict_after_split _ _ _ _ _ _ Hsplit). unfold bind.
    destruct (for_loop_posted chunks EmptyString st0) as (t & Htrace & Hpost).
    exists t.
    destruct (for_loop (csv_client endpoint) chunks EmptyString st0)
      as [[acc|e] st']; cbn [snd finish ret] in *; split; assumption.
  - rewrite (predict_split_raises _ _ _ _ _ _ Hsplit). exists [].
    cbn. rewrite !app_nil_r. split; reflexivity.
Qed.

(** With an endpoint that answers every request, the loop over arrays
    that all have rows runs to its end. *)
Lemma for_loop_with_rows_returns (cs : list (list Row)) (acc : string)
      (st : state (E:=client_error E)) :
  (forall w c, exists w' body, endpoint w c = (w', inr body)) ->
  Forall (fun c => c <> []) cs ->
  exists acc' st', for_loop (csv_client endpoint) cs acc st = (Ok acc', st').
Proof.
  intros Hup Hall. revert acc st.
  induction Hall as [|c cs Hc _ IH]; intros acc st.
  - exists acc, st. reflexivity.
  - destruct (Hup (fst (world st)) c) as (w' & body & Hend).
    rewrite (for_loop_cons_ok _ c cs acc st _ _
               (xgb_predictor_predict_ok _ c st _ body
                  (csv_client_answer (world st) c w' body Hc Hend))).
    apply IH.
Qed.

(** An array without rows among the sections stops the loop: the
    predictor raises at it, unless it raised before. *)
Lemma for_loop_refuses_empty (cs : list (list Row)) (acc : string)
      (st : state (E:=client_error E)) :
  In [] cs ->
  exists e st',
    for_loop (csv_client endpoint) cs acc st = (Raise (Remote e), st')
    /\ ((forall w c, exists w' body, endpoint w c = (w', inr body)) ->
        e = CannotSerializeEmptyArray).
Proof.
  revert acc st. induction cs as [|c cs IH]; intros acc st Hin; [contradiction|].
  destruct c as [|r c].
  - exists CannotSerializeEmptyArray, (mkState (world st)
                                       (trace st ++ [Request []; Fault CannotSerializeEmptyArray])).
    split; [|reflexivity].
    apply for_loop_cons_fault. reflexivity.
  - destruct Hin as [Hc|Hin]; [discriminate|].
    destruct (xgb_predictor_predict_cases (csv_client endpoint) (r :: c) st)
      as [(w & body & Hinv & Hcall)|(w & e & Hinv & Hcall)].
    + rewrite (for_loop_cons_ok _ _ _ _ _ _ _ Hcall). apply IH, Hin.
    + exists e, (mkState w (trace st ++ [Request (r :: c); Fault e])).
      split; [apply for_loop_cons_fault, Hcall|].
      intros Hup. exfalso.
      destruct (Hup (fst (world st)) (r :: c)) as (w' & body & Hend).
      cbn [csv_client] in Hinv. rewrite Hend in Hinv. discriminate.
Qed.


Lemma filter_has_rows_firstn (j : nat) (l : list (list Row)) :
  List.length (filter has_rows (firstn j l)) <= List.length (filter has_rows l).
Proof.
  rewrite <- (firstn_skipn j l) at 2. rewrite filter_app, length_app. lia.
Qed.

Lemma filter_has_rows_empty (l : list (list Row)) :
  In [] l -> List.length (filter has_rows l) < List.length l.
Proof.
  induction l as [|c l IH]; intros Hin; [contradiction|].
  pose proof (filter_length_le has_rows l) as Hle.
  destruct c as [|r c]; cbn [filter has_rows List.length].
  - lia.
  - destruct Hin as [Hc|Hin]; [discriminate|]. specialize (IH Hin). lia.
Qed.

Lemma all_with_rows (l : list (list Row)) :
  ~ In [] l -> Forall (fun c => c <> []) l.
Proof.
  intros Hnot. apply Forall_forall. intros c Hc ->. exact (Hnot Hc).
Qed.


(** X4.  For fewer than 2^25 rows and a positive bound below 2^25, the
    split step yields a section without rows exactly when the input has
    no rows or the bound is one row per request; the predictor of the
    notebook refuses such a section, so that [predict] raises instead of
    returning: [csv_serializer]'s error when the endpoint answered all
    requests before it. *)
Theorem split_step_empty_section
        (data : list Row) (rows : Z) (st0 : state (E:=client_error E)) :
  (0 < rows < 2 ^ 25)%Z ->
  (Z.of_nat (List.length data) < 2 ^ 25)%Z ->
  exists chunks,
    split_step (E:=client_error E) data rows = Ok chunks
    /\ (In [] chunks <-> data = [] \/ rows = 1%Z)
    /\ (data = [] \/ rows = 1%Z ->
        exists e st',
          predict (csv_client endpoint) fromstr data rows st0
          = (Raise (Remote e), st')
          /\ ((forall w c, exists w' body, endpoint w c = (w', inr body)) ->
              e = CannotSerializeEmptyArray)).
Proof.
  intros Hrows Hn.
  assert (Hpos : (0 < rows)%Z) by lia.
  exists (chunks_by (sizes_of (List.length data) rows) data).
  pose proof (split_step_positive (E:=client_error E) data rows Hrows Hn)
    as Hsplit.
  split; [exact Hsplit|].
  assert (Hiff : In [] (chunks_by (sizes_of (List.length data) rows) data)
                 <-> data = [] \/ rows = 1%Z).
  { pose proof (sizes_of_sum (List.length data) rows Hpos) as Hsum.
    assert (Hlen : map (@List.length Row)
                       (chunks_by (sizes_of (List.length data) rows) data)
                   = sizes_of (List.length data) rows)
      by (apply length_chunks_by; lia).
    assert (Hin : forall l : list (list Row),
               In [] l <-> In 0 (map (@List.length Row) l)).
    { intros l. rewrite in_map_iff. split.
      - intros H. exists []. split; [reflexivity | exact H].
      - intros (c & Hc & H). destruct c; [exact H | discriminate]. }
    rewrite Hin, Hlen. clear Hin Hlen Hsum Hsplit.
    unfold sizes_of.
    set (n := List.length data) in *.
    set (k := Z.to_nat (Z.of_nat n / rows + 1)).
    assert (Hk : 0 < k) by (apply sections_count_positive, Hpos).
    pose proof (Nat.mod_upper_bound n k ltac:(lia)) as Hmod.
    assert (Hzero : In 0 (repeat (n / k + 1) (n mod k) ++ repeat (n / k) (k - n mod k))
                    <-> n / k = 0).
    { rewrite in_app_iff. split.
      - intros [H|H]; apply repeat_spec in H; lia.
      - intros H. right. rewrite H.
        destruct (k - n mod k) as [|m] eqn:Hm; [lia | left; reflexivity]. }
    rewrite Hzero, Nat.div_small_iff by lia.
    assert (Hdata : data = [] <-> n = 0)
      by (subst n; destruct data; cbn; split; (congruence || lia)).
    rewrite Hdata.
    pose proof (Z.div_pos (Z.of_nat n) rows ltac:(lia) Hpos) as Hq.
    split.
    - intros Hlt.
      destruct (Z.eq_dec rows 1) as [|Hne]; [right; assumption|]. left.
      destruct (Nat.eq_dec n 0) as [|Hn0]; [assumption|]. exfalso.
      pose proof (Z.div_lt (Z.of_nat n) rows ltac:(lia) ltac:(lia)). lia.
    - intros [Hn0| ->].
      + rewrite Hn0. lia.
      + subst k. rewrite Z.div_1_r. lia. }
  split; [exact Hiff|].
  intros Hcase. apply Hiff in Hcase.
  rewrite (predict_after_split _ _ _ _ _ _ Hsplit). unfold bind.
  destruct (for_loop_refuses_empty _ EmptyString st0 Hcase)
    as (e & st' & Hrun & He).
  exists e, st'. rewrite Hrun. split; [reflexivity | exact He].
Qed.

End Client.

End ClientFacts.

Module ScoreFacts.
Import Python Numpy Churn NumpyFacts SplitFacts RunFacts StringFacts ClientFacts.
Local Open Scope string_scope.

Section Scores.
Context {Row Score World E : Type}.
Variable endpoint : World -> list Row -> World * (E + string).
Variable fromstr : string -> option (Score * string).

(** What the endpoint computes and how it writes it. *)
Variable score : Row -> Score.
Variable show : Score -> string.

(** The item reader reads nothing from the empty text ... *)
Hypothesis fromstr_empty : fromstr "" = None.

(** ... and reads back a written score that stands at the end of the text
    or before a comma. *)
Hypothesis fromstr_show :
  forall (s : Score) (rest : string),
    rest = "" \/ (exists r, rest = String "," r) ->
    fromstr (show s ++ rest) = Some (s, rest).

(** The endpoint answers every request with the scores of its rows, one
    per row and in the order of the rows. *)
Hypothesis endpoint_scores :
  forall (w : World) (chunk : list Row),
    chunk <> [] ->
    snd (endpoint w chunk) = inr (csv show (map score chunk)).

Lemma show_nonempty (s : Score) : show s <> "".
Proof.
  intros Hs. pose proof (fromstr_show s "" (or_introl eq_refl)) as H.
  rewrite Hs in H. cbn in H. rewrite fromstr_empty in H. discriminate.
Qed.

Lemma accumulated_join (acc : string) (bodies : list string) :
  accumulated acc bodies = join "," (acc :: bodies).
Proof.
  revert acc. induction bodies as [|b bodies IH]; intros acc; [reflexivity|].
  cbn [accumulated]. rewrite IH.
  destruct bodies as [|b' bodies]; [reflexivity|].
  rewrite !join_cons2. cbn [join]. rewrite !append_assoc. reflexivity.
Qed.

Lemma tail_accumulated (b : string) (bodies : list string) :
  tail_from_1 (accumulated "" (b :: bodies)) = join "," (b :: bodies).
Proof. rewrite accumulated_join. reflexivity. Qed.

(** With such an endpoint the loop over chunks that all have rows never
    raises and collects the written scores of every chunk. *)
Lemma for_loop_scores (chunks : list (list Row)) (acc : string)
      (st : state (E:=client_error E)) :
  Forall (fun c => c <> []) chunks ->
  exists st',
    for_loop (csv_client endpoint) chunks acc st
    = (Ok (accumulated acc (map (fun c => csv show (map score c)) chunks)), st').
Proof.
  intros Hall. revert acc st.
  induction Hall as [|c chunks Hc _ IH]; intros acc st.
  - exists st. reflexivity.
  - pose proof (endpoint_scores (fst (world st)) c Hc) as Hend.
    destruct (endpoint (fst (world st)) c) as [w r] eqn:Hinv. cbn [snd] in Hend.
    subst r.
    rewrite (for_loop_cons_ok _ c chunks acc st _ _
               (xgb_predictor_predict_ok _ c st _ _
                  (csv_client_answer endpoint (world st) c w _ Hc Hinv))).
    cbn [map accumulated]. apply IH.
Qed.

Lemma csv_app (l1 l2 : list Score) :
  l1 <> [] -> l2 <> [] ->
  csv show (l1 ++ l2) = csv show l1 ++ "," ++ csv show l2.
Proof.
  intros H1 H2. unfold csv. rewrite map_app.
  apply join_app; intros Hmap; apply map_eq_nil in Hmap; contradiction.
Qed.

(** The joined replies of chunks that all have rows are the written
    scores of all their rows. *)
Lemma join_csv_concat (Ns : list (list Score)) :
  Ns <> [] -> Forall (fun N => N <> []) Ns ->
  join "," (map (csv show) Ns) = csv show (List.concat Ns).
Proof.
  intros Hne Hall. induction Hall as [|N Ns HN Hall IH]; [congruence|].
  destruct Ns as [|N' Ns].
  - cbn. rewrite app_nil_r. reflexivity.
  - cbn [map]. rewrite join_cons2. cbn [map] in IH. rewrite IH by discriminate.
    change (List.concat (N :: N' :: Ns))
      with (N ++ List.concat (N' :: Ns))%list.
    rewrite csv_app; [reflexivity | exact HN |].
    inversion Hall as [|? ? HN' _]; subst.
    cbn [List.concat]. destruct N'; [congruence | discriminate].
Qed.

Lemma skip_separator_comma (r : string) :
  r <> "" -> skip_separator "," (String "," r) = Some r.
Proof. intros Hr. destruct r; [congruence | reflexivity]. Qed.

Lemma csv_cons2 (x y : Score) (l : list Score) :
  csv show (x :: y :: l) = show x ++ String "," (csv show (y :: l)).
Proof. reflexivity. Qed.

Lemma csv_nonempty (x : Score) (l : list Score) (tail : string) :
  csv show (x :: l) ++ tail <> "".
Proof.
  pose proof (show_nonempty x) as Hx.
  destruct l as [|y l].
  - cbn. destruct (show x); [congruence | discriminate].
  - rewrite csv_cons2. destruct (show x); [congruence | discriminate].
Qed.

(** Reading back written scores, with or without a comma after the last
    one; one round of the reader per score. *)
Lemma array_from_text_csv (scores : list Score) (fuel : nat) (tail : string) :
  scores <> [] ->
  tail = "" \/ tail = "," ->
  List.length scores <= fuel ->
  array_from_text fromstr fuel "," (csv show scores ++ tail) = scores.
Proof.
  intros Hne Htail. revert fuel.
  induction scores as [|x scores IH]; intros fuel Hfuel; [congruence|].
  destruct fuel as [|fuel]; [cbn in Hfuel; lia|].
  destruct scores as [|y scores].
  - cbn [csv map join array_from_text].
    rewrite fromstr_show
      by (destruct Htail as [->| ->]; [left | right; exists ""]; reflexivity).
    destruct Htail as [->| ->]; reflexivity.
  - rewrite csv_cons2, append_assoc. cbn [array_from_text].
    change (String "," (csv show (y :: scores)) ++ tail)
      with (String "," (csv show (y :: scores) ++ tail)).
    rewrite fromstr_show by (right; eexists; reflexivity).
    rewrite skip_separator_comma by apply csv_nonempty.
    rewrite IH; [reflexivity | discriminate | cbn in Hfuel |- *; lia].
Qed.

Lemma length_csv (scores : list Score) :
  List.length scores <= S (String.length (csv show scores)).
Proof.
  induction scores as [|x scores IH]; [cbn; lia|].
  destruct scores as [|y scores]; [cbn; lia|].
  rewrite csv_cons2, length_append. cbn [String.length List.length] in *.
  lia.
Qed.

Lemma fromstring_csv (scores : list Score) (tail : string) :
  scores <> [] ->
  tail = "" \/ tail = "," ->
  fromstring fromstr (csv show scores ++ tail) "," = scores.
Proof.
  intros Hne Htail. unfold fromstring.
  apply array_from_text_csv; [assumption | assumption |].
  rewrite length_append. pose proof (length_csv scores). lia.
Qed.

Lemma fromstring_empty : fromstring fromstr "" "," = @nil Score.
Proof. unfold fromstring. cbn. rewrite fromstr_empty. reflexivity. Qed.


End Scores.

End ScoreFacts.

(* ================================================================== *)
(** * The theorems at concrete endpoints *)
(* ================================================================== *)

Module Instances.
Import Python Numpy Churn Examples SplitFacts RunFacts ClientFacts ScoreFacts.
Local Open Scope string_scope.

Lemma read_bit_empty : read_bit "" = None.
Proof. reflexivity. Qed.

Lemma read_bit_show (s : bool) (rest : string) :
  rest = "" \/ (exists r, rest = String "," r) ->
  read_bit (show_bit s ++ rest) = Some (s, rest).
Proof. intros _. destruct s; reflexivity. Qed.

Lemma scoring_endpoint_scores (w : unit) (chunk : list nat) :
  chunk <> [] ->
  snd (scoring_endpoint w chunk) = inr (csv show_bit (map Nat.odd chunk)).
Proof. reflexivity. Qed.

Lemma scoring_endpoint_answers (w : unit) (chunk : list nat) :
  exists w' body, scoring_endpoint w chunk = (w', inr body).
Proof. eexists. eexists. reflexivity. Qed.

(** Five rows, two per request: three requests, five scores in order. *)
Example predict_five_by_two :
  predict (csv_client scoring_endpoint) read_bit [1; 2; 3; 4; 5] 2 (idle (tt, []))
  = (Ok [true; false; true; false; true],
     mkState (tt, [[1; 2]; [3; 4]; [5]])
             [Request [1; 2]; Response "1,0";
              Request [3; 4]; Response "1,0";
              Request [5]; Response "1"]).
Proof. reflexivity. Qed.

(** One row per request: after the three rows the predictor is called
    with a fourth, empty chunk, and refuses it; the three scores that came
    back are lost. *)
Example predict_three_by_one :
  predict (csv_client scoring_endpoint) read_bit [1; 2; 3] 1 (idle (tt, []))
  = (Raise (Remote CannotSerializeEmptyArray),
     mkState (tt, [[1]; [2]; [3]])
             [Request [1]; Response "1";
              Request [2]; Response "0";
              Request [3]; Response "1";
              Request []; Fault CannotSerializeEmptyArray]).
Proof. reflexivity. Qed.

(** No rows: the one chunk is empty, and nothing is posted. *)
Example predict_no_rows :
  predict (csv_client scoring_endpoint) read_bit [] 500 (idle (tt, []))
  = (Raise (Remote CannotSerializeEmptyArray),
     mkState (tt, []) [Request []; Fault CannotSerializeEmptyArray]).
Proof. reflexivity. Qed.



(** Three rows, two per request, and an endpoint that fails its second
    call. *)
Lemma predict_propagates_failure_witness :
  split_step (E:=string) [1; 2; 3] 2 = Ok [[1; 2]; [3]]
  /\ loop_head flaky_endpoint [[1; 2]; [3]] (idle 0) [[3]] ",1,0"
       (mkState 1 [Request [1; 2]; Response "1,0"])
  /\ flaky_endpoint 1 [3] = (2, inl "503")
  /\ predict flaky_endpoint read_bit [1; 2; 3] 2 (idle 0)
     = (Raise (Remote "503"),
        mkState 2 [Request [1; 2]; Response "1,0"; Request [3]; Fault "503"])
  /\ requests [Request [1; 2]; Response "1,0"; Request [3]; Fault "503"]
     = [[1; 2]; [3]].
Proof.
  assert (Hsplit : split_step (E:=string) [1; 2; 3] 2 = Ok [[1; 2]; [3]])
    by reflexivity.
  assert (Hhead : loop_head flaky_endpoint [[1; 2]; [3]] (idle 0) [[3]] ",1,0"
                    (mkState 1 [Request [1; 2]; Response "1,0"])).
  { exact (head_next flaky_endpoint [[1; 2]; [3]] (idle 0)
             [1; 2] [[3]] "" (idle 0) "1,0"
             (mkState 1 [Request [1; 2]; Response "1,0"])
             (head_init flaky_endpoint [[1; 2]; [3]] (idle 0)) eq_refl). }
  assert (Hinv : flaky_endpoint 1 [3] = (2, inl "503")) by reflexivity.
  destruct (predict_propagates_failure flaky_endpoint read_bit
              [1; 2; 3] 2 (idle 0) [[1; 2]; [3]] [3] [] ",1,0"
              (mkState 1 [Request [1; 2]; Response "1,0"]) 2 "503"
              Hsplit Hhead Hinv) as (Hrun & pre & Hpre & Hreq).
  repeat (split; [assumption|]).
  reflexivity.
Defined.






End Instances.

(* ================================================================== *)
(** * Thresholding and the confusion matrix *)
(* ================================================================== *)

Module TabulationFacts.
Import Python Numpy Pandas Churn.

Lemma in_insert_key (x z : Z) (l : list Z) :
  In z (insert_key x l) <-> z = x \/ In z l.
Proof.
  induction l as [|y l IH]; cbn [insert_key].
  - cbn. intuition.
  - destruct (Z.ltb_spec x y); [cbn; intuition|].
    destruct (Z.eqb_spec x y) as [->|Hne]; [cbn; intuition|].
    cbn [In]. rewrite IH. intuition.
Qed.

Lemma insert_key_sorted (x : Z) (l : list Z) :
  StronglySorted Z.lt l -> StronglySorted Z.lt (insert_key x l).
Proof.
  induction 1 as [|y l Hsorted IH Hall]; cbn [insert_key].
  - repeat constructor.
  - destruct (Z.ltb_spec x y) as [Hlt|Hge].
    + constructor; [constructor; assumption|].
      constructor; [exact Hlt|].
      eapply Forall_impl; [|exact Hall]. intros z Hz. lia.
    + destruct (Z.eqb_spec x y) as [->|Hne]; [constructor; assumption|].
      constructor; [exact IH|].
      apply Forall_forall. intros z Hz. apply in_insert_key in Hz.
      destruct Hz as [->|Hz]; [lia|].
      rewrite Forall_forall in Hall. apply Hall, Hz.
Qed.

Lemma unique_sorted_sorted (l : list Z) : StronglySorted Z.lt (unique_sorted l).
Proof.
  induction l as [|x l IH]; [constructor|].
  cbn [unique_sorted fold_right]. apply insert_key_sorted, IH.
Qed.

Lemma in_unique_sorted (z : Z) (l : list Z) : In z (unique_sorted l) <-> In z l.
Proof.
  induction l as [|x l IH]; [reflexivity|].
  cbn [unique_sorted fold_right]. rewrite in_insert_key.
  fold (unique_sorted l). rewrite IH. cbn. intuition.
Qed.

Lemma sorted_nodup (l : list Z) : StronglySorted Z.lt l -> NoDup l.
Proof.
  induction 1 as [|y l Hsorted IH Hall]; constructor; [|exact IH].
  intros Hin. rewrite Forall_forall in Hall. specialize (Hall y Hin). lia.
Qed.

Lemma unique_sorted_nodup (l : list Z) : NoDup (unique_sorted l).
Proof. apply sorted_nodup, unique_sorted_sorted. Qed.

(** ** Counting *)

Lemma list_sum_map_add {A} (f g : A -> nat) (l : list A) :
  list_sum (map (fun x => f x + g x) l)
  = list_sum (map f l) + list_sum (map g l).
Proof.
  induction l as [|x l IH]; [reflexivity|].
  cbn [map]. change (list_sum (?a :: ?t)) with (a + list_sum t).
  rewrite IH.
  change (list_sum (f x :: map f l)) with (f x + list_sum (map f l)).
  change (list_sum (g x :: map g l)) with (g x + list_sum (map g l)).
  lia.
Qed.

Lemma list_sum_map_zero {A} (l : list A) :
  list_sum (map (fun _ => 0) l) = 0.
Proof. induction l as [|x l IH]; [reflexivity | exact IH]. Qed.

(** One label of a duplicate-free list matches a value of the list. *)
Lemma one_label_matches (y : Z) (l : list Z) :
  NoDup l -> In y l ->
  list_sum (map (fun c => if (y =? c)%Z then 1 else 0) l) = 1.
Proof.
  induction 1 as [|x l Hnotin Hnodup IH]; intros Hin; [contradiction|].
  cbn [map]. change (list_sum (?a :: ?t)) with (a + list_sum t).
  destruct (Z.eqb_spec y x) as [->|Hne].
  - rewrite (map_ext_in _ (fun _ => 0)), list_sum_map_zero; [reflexivity|].
    intros c Hc. destruct (Z.eqb_spec x c) as [->|]; [contradiction | reflexivity].
  - destruct Hin as [Heq|Hin]; [congruence|]. rewrite IH by assumption.
    reflexivity.
Qed.

(** One cell of the table takes a pair whose values are among the labels. *)
Lemma one_cell_matches (a b : Z) (rs cs : list Z) :
  NoDup rs -> NoDup cs -> In a rs -> In b cs ->
  list_sum (map (fun r =>
     list_sum (map (fun c => if (a =? r)%Z && (b =? c)%Z then 1 else 0) cs)) rs)
  = 1.
Proof.
  intros Hrs Hcs Ha Hb.
  rewrite (map_ext _ (fun r => if (a =? r)%Z then 1 else 0)).
  - apply one_label_matches; assumption.
  - intros r. destruct (a =? r)%Z; cbn [andb].
    + apply one_label_matches; assumption.
    + apply list_sum_map_zero.
Qed.

Lemma count_pairs_cons (r c : Z) (p : Z * Z) (pairs : list (Z * Z)) :
  count_pairs r c (p :: pairs)
  = (if (fst p =? r)%Z && (snd p =? c)%Z then 1 else 0) + count_pairs r c pairs.
Proof.
  unfold count_pairs. cbn [filter].
  destruct ((fst p =? r)%Z && (snd p =? c)%Z); reflexivity.
Qed.

(** Every pair is counted in exactly one cell. *)
Lemma cells_sum (rs cs : list Z) (pairs : list (Z * Z)) :
  NoDup rs -> NoDup cs ->
  Forall (fun p => In (fst p) rs /\ In (snd p) cs) pairs ->
  list_sum (map (fun r => list_sum (map (fun c => count_pairs r c pairs) cs)) rs)
  = List.length pairs.
Proof.
  intros Hrs Hcs Hall. induction Hall as [|p pairs [Ha Hb] Hall IH].
  - rewrite (map_ext _ (fun _ => 0)); [apply list_sum_map_zero|].
    intros r. apply list_sum_map_zero.
  - rewrite (map_ext _ (fun r =>
       list_sum (map (fun c =>
          if (fst p =? r)%Z && (snd p =? c)%Z then 1 else 0) cs)
       + list_sum (map (fun c => count_pairs r c pairs) cs))).
    + rewrite list_sum_map_add, IH, one_cell_matches by assumption.
      reflexivity.
    + intros r. rewrite <- list_sum_map_add. f_equal.
      apply map_ext. intros c. apply count_pairs_cons.
Qed.

Lemma in_pairs_both (pairs : list (Z * Z)) :
  Forall (fun p => In (fst p) (map fst pairs) /\ In (snd p) (map snd pairs)) pairs.
Proof.
  apply Forall_forall. intros p Hin.
  split; apply in_map; exact Hin.
Qed.

(** The positions left are those whose label is there. *)
Lemma length_dropna (index : list (option Z)) (columns : list Z) :
  List.length index = List.length columns ->
  List.length (dropna index columns) = List.length (filter notna index).
Proof.
  revert columns. induction index as [|[r|] index IH]; intros [|c columns] Hlen;
    try discriminate; [reflexivity | |];
    cbn [dropna filter notna List.length]; rewrite IH by (cbn in Hlen; lia);
    reflexivity.
Qed.

Lemma filter_notna_all (index : list (option Z)) :
  Forall (fun l => l <> None) index -> filter notna index = index.
Proof.
  induction 1 as [|[r|] index Hl _ IH]; [reflexivity | | congruence].
  cbn [filter notna]. rewrite IH. reflexivity.
Qed.

(** The cells of a cross-tabulation of two columns of one length add up
    to the number of positions whose label is there. *)
Lemma crosstab_total {E} (index : list (option Z)) (columns : list Z) :
  List.length index = List.length columns ->
  exists table,
    crosstab (E:=E) index columns = Ok table
    /\ total table = List.length (filter notna index).
Proof.
  intros Hlen. unfold crosstab. rewrite Hlen, Nat.eqb_refl.
  eexists. split; [reflexivity|].
  unfold total. cbn [cells]. rewrite map_map.
  rewrite cells_sum.
  - apply length_dropna, Hlen.
  - apply unique_sorted_nodup.
  - apply unique_sorted_nodup.
  - eapply Forall_impl; [|apply in_pairs_both].
    intros p [Ha Hb]. split; apply in_unique_sorted; assumption.
Qed.

Lemma length_predicted_labels (predictions : list float) :
  List.length (predicted_labels predictions) = List.length predictions.
Proof. unfold predicted_labels, np_where, gt. rewrite !length_map. reflexivity. Qed.

(** C4.  Thresholding labels every score: the label sequence is as long
    as the score sequence, the label of a score [s] is 1 when
    [s > THRESHOLD] (the cutoff 0.3) and 0 otherwise, and so every label is
    0 or 1. *)
Theorem predicted_labels_binary (predictions : list float) :
  List.length (predicted_labels predictions) = List.length predictions
  /\ (forall i s,
        nth_error predictions i = Some s ->
        nth_error (predicted_labels predictions) i
        = Some (if PrimFloat.ltb THRESHOLD s then 1 else 0)%Z)
  /\ Forall (fun l => l = 0 \/ l = 1)%Z (predicted_labels predictions).
Proof.
  unfold predicted_labels, np_where, gt. rewrite map_map.
  split; [apply length_map|]. split.
  - intros i s Hi.
    apply (map_nth_error (fun s => if PrimFloat.ltb THRESHOLD s then 1 else 0)%Z),
          Hi.
  - apply Forall_map, Forall_forall. intros s _.
    destruct (PrimFloat.ltb THRESHOLD s); [right | left]; reflexivity.
Qed.

(** The cutoff itself and everything below it is labelled 0, the next
    binary64 number above it is labelled 1, and so is not-a-number 0. *)
Example predicted_labels_at_cutoff :
  predicted_labels [0.25; 0x1.3333333333333p-2; 0x1.3333333333334p-2; 0.5; nan]%float
  = [0; 0; 1; 1; 0]%Z.
Proof. reflexivity. Qed.

(** C5, amended.  For every column of true labels and every score
    sequence of the same length, the confusion matrix is built and its
    cells add up to the number of test rows whose true label is there;
    that is the number of test rows when no label is missing. *)
Theorem confusion_matrix_total {E} (labels : list (option Z))
        (predictions : list float) :
  List.length predictions = List.length labels ->
  exists table,
    confusion_matrix (E:=E) labels predictions = Ok table
    /\ total table = List.length (filter notna labels)
    /\ (Forall (fun l => l <> None) labels ->
        total table = List.length labels).
Proof.
  intros Hlen. unfold confusion_matrix.
  destruct (crosstab_total (E:=E) labels (predicted_labels predictions))
    as (table & Htable & Htotal);
    [rewrite length_predicted_labels; lia|].
  exists table. split; [exact Htable|]. split; [exact Htotal|].
  intros Hall. rewrite Htotal, filter_notna_all by assumption. reflexivity.
Qed.

Example confusion_matrix_of_five :
  confusion_matrix (E:=unit) [Some 0; Some 1; Some 1; Some 0; Some 1]%Z
                   [0.25; 0.75; 0.125; 0.5; 0.875]%float
  = Ok (mkDataFrame [0; 1]%Z [0; 1]%Z [[1; 1]; [1; 2]]).
Proof. reflexivity. Qed.

Lemma confusion_matrix_total_witness :
  List.length [0.25; 0.75; 0.125; 0.5; 0.875]%float
  = List.length [Some 0; Some 1; Some 1; Some 0; Some 1]%Z
  /\ exists table,
       confusion_matrix (E:=unit)
         [Some 0; Some 1; Some 1; Some 0; Some 1]%Z
         [0.25; 0.75; 0.125; 0.5; 0.875]%float = Ok table
       /\ total table = 5.
Proof.
  split; [reflexivity|].
  destruct (confusion_matrix_total (E:=unit)
              [Some 0; Some 1; Some 1; Some 0; Some 1]%Z
              [0.25; 0.75; 0.125; 0.5; 0.875]%float eq_refl)
    as (table & Htable & Htotal & _).
  exists table. split; [exact Htable | exact Htotal].
Defined.

(** C5 as it is worded fails when a true label is missing: pandas leaves
    the row out.  Three test rows, the second without a label: the cells
    add up to two. *)
Lemma confusion_matrix_total_counterexample :
  List.length [0.25; 0.75; 0.5]%float = List.length [Some 0%Z; None; Some 1%Z]
  /\ confusion_matrix (E:=unit) [Some 0%Z; None; Some 1%Z] [0.25; 0.75; 0.5]%float
     = Ok (mkDataFrame [0; 1]%Z [0; 1]%Z [[1; 0]; [0; 1]])
  /\ total (mkDataFrame [0; 1]%Z [0; 1]%Z [[1; 0]; [0; 1]]) = 2
  /\ List.length [Some 0%Z; None; Some 1%Z] = 3.
Proof. repeat split. Qed.

End TabulationFacts.

(* ================================================================== *)
(** * The best trial *)
(* ================================================================== *)

Module ExperimentFacts.
Import Python Experiments.

Lemma ge_metric_trans (a b c : TrialComponent) :
  ge_metric a b -> ge_metric b c -> ge_metric a c.
Proof. unfold ge_metric. intros Hab Hbc. eapply Qle_trans; eassumption. Qed.

(** In a descending list the head is not below any item. *)
Lemma descending_head (b : TrialComponent) (l : list TrialComponent) :
  descending (b :: l) -> forall t, In t (b :: l) -> ge_metric b t.
Proof.
  intros Hdesc t Hin.
  apply Sorted_StronglySorted in Hdesc;
    [|intros x y z; apply ge_metric_trans].
  inversion Hdesc as [|? ? _ Hall]; subst.
  destruct Hin as [<-|Hin]; [apply Qle_refl|].
  rewrite Forall_forall in Hall. apply Hall, Hin.
Qed.

(** Looking a stored component up by its name finds that component when
    names are not shared. *)
Lemma find_by_name (store : list TrialComponent) (b : TrialComponent) :
  NoDup (map TrialComponentName store) ->
  In b store ->
  find (fun t => String.eqb (TrialComponentName t) (TrialComponentName b)) store
  = Some b.
Proof.
  induction store as [|u store IH]; intros Hnodup Hin; [contradiction|].
  cbn [map] in Hnodup. inversion Hnodup as [|? ? Hnotin Hnodup']; subst.
  cbn [find].
  destruct (String.eqb_spec (TrialComponentName u) (TrialComponentName b))
    as [Heq|Hne].
  - destruct Hin as [->|Hin]; [reflexivity|].
    exfalso. apply Hnotin. rewrite Heq. apply in_map, Hin.
  - destruct Hin as [->|Hin]; [congruence|]. apply IH; assumption.
Qed.

Section Best.
Context {E : Type}.
Variable search : list TrialComponent -> list TrialComponent.

(** The contract of the search: the answer holds the stored components,
    each once, in descending order of the metric. *)
Hypothesis search_permutation :
  forall store, Permutation (search store) store.
Hypothesis search_descending :
  forall store, descending (search store).

(** C6.  For every store of trial components that is not empty, row 0
    of the table sorted by [test:accuracy] in descending order is a stored
    component whose metric is not below that of any stored component; and
    the component then loaded under its name, the one that is deployed, is
    that same component, names being what tells components apart. *)
Theorem best_trial_component_is_maximal (store : list TrialComponent) :
  store <> [] ->
  exists best,
    iloc (E:=E) (dataframe search store) 0 = Ok best
    /\ In best store
    /\ (forall t, In t store ->
                  Qle (test_accuracy_max t) (test_accuracy_max best))
    /\ (NoDup (map TrialComponentName store) ->
        best_trial_component (E:=E) search store = Ok best).
Proof.
  intros Hne.
  pose proof (search_permutation store) as Hperm.
  pose proof (search_descending store) as Hdesc.
  unfold best_trial_component, dataframe, iloc, load.
  destruct (search store) as [|b l] eqn:Hsearch.
  - apply Permutation_nil in Hperm. congruence.
  - assert (Hin : In b store)
      by (eapply Permutation_in; [exact Hperm | left; reflexivity]).
    exists b. cbn [nth_error].
    split; [reflexivity|].
    split; [exact Hin|].
    split.
    + intros t Ht. apply (descending_head b l Hdesc).
      eapply Permutation_in; [apply Permutation_sym, Hperm | exact Ht].
    + intros Hnames. rewrite find_by_name by assumption. reflexivity.
Qed.

End Best.

(** ** The reference search meets the contract *)

Lemma insert_descending_permutation (t : TrialComponent) (l : list TrialComponent) :
  Permutation (insert_descending t l) (t :: l).
Proof.
  induction l as [|u l IH]; cbn [insert_descending]; [reflexivity|].
  destruct (Qle_bool (test_accuracy_max u) (test_accuracy_max t));
    [reflexivity|].
  rewrite IH. apply perm_swap.
Qed.

Lemma sort_descending_permutation (l : list TrialComponent) :
  Permutation (sort_descending l) l.
Proof.
  induction l as [|t l IH]; [reflexivity|].
  cbn [sort_descending fold_right]. fold (sort_descending l).
  rewrite insert_descending_permutation. constructor. exact IH.
Qed.

Lemma insert_descending_sorted (t : TrialComponent) (l : list TrialComponent) :
  descending l -> descending (insert_descending t l).
Proof.
  unfold descending.
  induction 1 as [|u l Hsorted IH Hhd]; cbn [insert_descending].
  - repeat constructor.
  - destruct (Qle_bool (test_accuracy_max u) (test_accuracy_max t)) eqn:Hle.
    + constructor; [constructor; assumption|].
      constructor. apply Qle_bool_iff, Hle.
    + assert (Hut : ge_metric u t).
      { unfold ge_metric. apply Qlt_le_weak, Qnot_le_lt.
        intros H. apply Qle_bool_iff in H. congruence. }
      constructor; [exact IH|].
      destruct l as [|v l]; cbn [insert_descending].
      * constructor. exact Hut.
      * destruct (Qle_bool (test_accuracy_max v) (test_accuracy_max t));
          constructor; [exact Hut|].
        inversion Hhd; assumption.
Qed.

Lemma sort_descending_sorted (l : list TrialComponent) :
  descending (sort_descending l).
Proof.
  induction l as [|t l IH]; [constructor|].
  cbn [sort_descending fold_right]. apply insert_descending_sorted, IH.
Qed.

(** Three trials of the hidden-channel sweep; the second has the best
    accuracy. *)
Lemma best_trial_component_is_maximal_witness :
  [mkTrialComponent "cnn-training-job-2-hidden-channels" (Qmake 9712 100);
   mkTrialComponent "cnn-training-job-10-hidden-channels" (Qmake 9891 100);
   mkTrialComponent "cnn-training-job-5-hidden-channels" (Qmake 9803 100)]
  <> []
  /\ exists best,
       iloc (E:=unit)
         (dataframe sort_descending
            [mkTrialComponent "cnn-training-job-2-hidden-channels" (Qmake 9712 100);
             mkTrialComponent "cnn-training-job-10-hidden-channels" (Qmake 9891 100);
             mkTrialComponent "cnn-training-job-5-hidden-channels" (Qmake 9803 100)])
         0 = Ok best
       /\ test_accuracy_max best = Qmake 9891 100.
Proof.
  assert (Hne :
    [mkTrialComponent "cnn-training-job-2-hidden-channels" (Qmake 9712 100);
     mkTrialComponent "cnn-training-job-10-hidden-channels" (Qmake 9891 100);
     mkTrialComponent "cnn-training-job-5-hidden-channels" (Qmake 9803 100)]
    <> []) by discriminate.
  split; [exact Hne|].
  destruct (best_trial_component_is_maximal (E:=unit) sort_descending
              sort_descending_permutation sort_descending_sorted _ Hne)
    as (best & Hrow & _ & _ & _).
  exists best. split; [exact Hrow|].
  injection Hrow as <-. reflexivity.
Defined.

Example best_trial_component_of_three :
  best_trial_component (E:=unit) sort_descending
    [mkTrialComponent "cnn-training-job-2-hidden-channels" (Qmake 9712 100);
     mkTrialComponent "cnn-training-job-10-hidden-channels" (Qmake 9891 100);
     mkTrialComponent "cnn-training-job-5-hidden-channels" (Qmake 9803 100)]
  = Ok (mkTrialComponent "cnn-training-job-10-hidden-channels" (Qmake 9891 100)).
Proof. reflexivity. Qed.

End ExperimentFacts.

(* ================================================================== *)
(** * More on the split step of [predict] *)
(* ================================================================== *)

Module SplitShape.
Import Python Numpy Churn Examples NumpyFacts SplitFacts ClientFacts Instances.

Section Shape.
Context {Row E : Type}.

Lemma nth_error_repeat2 (q e m i s : nat) :
  nth_error (repeat (q + 1) e ++ repeat q m) i = Some s ->
  (i < e /\ s = q + 1) \/ (e <= i /\ s = q).
Proof.
  intros Hi.
  assert (Hin : In s (repeat (q + 1) e ++ repeat q m))
    by (eapply nth_error_In; exact Hi).
  destruct (Nat.lt_ge_cases i e) as [Hlt|Hge].
  - left. split; [exact Hlt|].
    rewrite nth_error_app1 in Hi by (rewrite repeat_length; exact Hlt).
    apply nth_error_In, repeat_spec in Hi. exact Hi.
  - right. split; [exact Hge|].
    rewrite nth_error_app2 in Hi by (rewrite repeat_length; exact Hge).
    apply nth_error_In, repeat_spec in Hi. exact Hi.
Qed.

(** X1.  The sections of the split step are balanced and the longer ones
    come first: of two sections, the later one is never longer than the
    earlier one and is at most one row shorter. *)
Theorem split_step_balanced (data : list Row) (rows : Z)
        (chunks : list (list Row)) (i j : nat) (ci cj : list Row) :
  split_step (E:=E) data rows = Ok chunks ->
  i <= j ->
  nth_error chunks i = Some ci ->
  nth_error chunks j = Some cj ->
  List.length cj <= List.length ci <= List.length cj + 1.
Proof.
  intros Hsplit Hij Hi Hj. unfold split_step in Hsplit.
  destruct (n_sections data rows) as [k|e]; [|discriminate].
  destruct (array_split_lengths data k chunks Hsplit) as [_ Hlen].
  apply (map_nth_error (@List.length Row)) in Hi, Hj.
  rewrite Hlen in Hi, Hj.
  apply nth_error_repeat2 in Hi, Hj. lia.
Qed.

(** A list shorter than the bound is one section. *)
Lemma split_step_small (data : list Row) (rows : Z) :
  (Z.of_nat (List.length data) < rows < 2 ^ 25)%Z ->
  split_step (E:=E) data rows = Ok [data].
Proof.
  intros Hsmall.
  rewrite split_step_positive by lia. f_equal.
  unfold sizes_of. rewrite Z.div_small by lia.
  change (Z.to_nat (0 + 1)) with 1.
  rewrite Nat.mod_1_r, Nat.div_1_r. cbn [repeat app chunks_by Nat.sub].
  rewrite firstn_all. reflexivity.
Qed.

End Shape.

Lemma split_step_balanced_witness :
  split_step (E:=unit) [1; 2; 3; 4; 5; 6; 7] 3 = Ok [[1; 2; 3]; [4; 5]; [6; 7]]
  /\ 0 <= 2
  /\ List.length [6; 7] <= List.length [1; 2; 3] <= List.length [6; 7] + 1.
Proof.
  split; [reflexivity|]. split; [lia|].
  apply (split_step_balanced (E:=unit) [1; 2; 3; 4; 5; 6; 7] 3
           [[1; 2; 3]; [4; 5]; [6; 7]] 0 2 [1; 2; 3] [6; 7]);
    (reflexivity || lia).
Defined.

(** Two rows, one row per request: the third section is empty, and the
    predictor refuses it after the two rows were scored. *)
Lemma split_step_empty_section_witness :
  (0 < 1 < 2 ^ 25)%Z
  /\ (Z.of_nat (List.length [1; 2]) < 2 ^ 25)%Z
  /\ exists chunks,
       split_step (E:=client_error string) [1; 2] 1 = Ok chunks
       /\ In [] chunks
       /\ exists st',
            predict (csv_client scoring_endpoint) read_bit [1; 2] 1 (idle (tt, []))
            = (Raise (Remote CannotSerializeEmptyArray), st').
Proof.
  assert (Hrows : (0 < 1 < 2 ^ 25)%Z) by (split; reflexivity).
  assert (Hn : (Z.of_nat (List.length [1; 2]) < 2 ^ 25)%Z) by reflexivity.
  split; [exact Hrows|]. split; [exact Hn|].
  destruct (split_step_empty_section scoring_endpoint read_bit
              [1; 2] 1 (idle (tt, [])) Hrows Hn)
    as (chunks & Hsplit & Hiff & Hraise).
  exists chunks. split; [exact Hsplit|].
  split; [apply Hiff; right; reflexivity|].
  destruct (Hraise (or_intror eq_refl)) as (e & st' & Hrun & He).
  exists st'. rewrite Hrun, (He scoring_endpoint_answers). reflexivity.
Defined.

End SplitShape.

(* ================================================================== *)
(** * More on the runs of [predict] *)
(* ================================================================== *)

Module MoreRunFacts.
Import Python Numpy Churn NumpyFacts SplitFacts RunFacts StringFacts ScoreFacts
       SplitShape.
Local Open Scope string_scope.

Section Runs.
Context {Row Score World E : Type}.
Variable invoke : World -> list Row -> World * (E + string).
Variable fromstr : string -> option (Score * string).

(** A loop that returns has exchanged every chunk, and [predictions]
    holds the replies. *)
Lemma for_loop_ok_inv (cs : list (list Row)) (acc acc' : string) (st st' : state) :
  for_loop invoke cs acc st = (Ok acc', st') ->
  exists bodies,
    List.length bodies = List.length cs
    /\ acc' = accumulated acc bodies
    /\ trace st' = (trace st ++ exchanges cs bodies)%list.
Proof.
  intros Hrun.
  destruct (for_loop_outcome invoke cs acc st)
    as [(bodies & st1 & Hlen & Hrun1 & Htrace)
       |(pre & c & post & bodies & e & st1 & _ & _ & Hrun1 & _)];
    rewrite Hrun1 in Hrun; [|discriminate].
  injection Hrun as <- <-. exists bodies. repeat split; assumption.
Qed.

Lemma split_step_nonempty (data : list Row) (rows : Z) chunks :
  split_step (E:=E) data rows = Ok chunks -> chunks <> [].
Proof.
  unfold split_step. destruct (n_sections data rows) as [k|e]; [|discriminate].
  intros Hsplit ->.
  pose proof (array_split_length data k [] Hsplit) as Hlen.
  destruct (array_split_lengths data k [] Hsplit) as [Hk _].
  cbn in Hlen. lia.
Qed.

(** What a run that returns has done and what it returns. *)
Lemma predict_ok_inv (data : list Row) (rows : Z) (st0 st' : state)
      (scores : list Score) :
  predict invoke fromstr data rows st0 = (Ok scores, st') ->
  exists chunks bodies,
    split_step (E:=E) data rows = Ok chunks
    /\ List.length bodies = List.length chunks
    /\ bodies <> []
    /\ trace st' = (trace st0 ++ exchanges chunks bodies)%list
    /\ scores
       = fromstring fromstr (tail_from_1 (accumulated "" bodies)) ",".
Proof.
  intros Hrun.
  destruct (split_step (E:=E) data rows) as [chunks|e] eqn:Hsplit.
  - rewrite (predict_after_split invoke fromstr _ _ _ _ Hsplit) in Hrun.
    unfold bind in Hrun.
    destruct (for_loop invoke chunks "" st0) as [[acc|e] st1] eqn:Hloop;
      [|discriminate].
    destruct (for_loop_ok_inv _ _ _ _ _ Hloop) as (bodies & Hlen & Hacc & Htrace).
    cbn [finish ret] in Hrun. injection Hrun as <- <-.
    exists chunks, bodies.
    split; [reflexivity|]. split; [exact Hlen|].
    split; [|split; [exact Htrace | rewrite Hacc; reflexivity]].
    pose proof (split_step_nonempty data rows chunks Hsplit) as Hne.
    intros ->. destruct chunks; [congruence | discriminate Hlen].
  - rewrite (predict_split_raises invoke fromstr _ _ _ _ Hsplit) in Hrun.
    discriminate.
Qed.

Lemma exchanges_inj (cs : list (list Row)) (b1 b2 : list string) :
  List.length b1 = List.length cs ->
  List.length b2 = List.length cs ->
  exchanges (E:=E) cs b1 = exchanges cs b2 -> b1 = b2.
Proof.
  revert b1 b2. induction cs as [|c cs IH]; intros [|x b1] [|y b2] H1 H2 Heq;
    try discriminate; [reflexivity|].
  cbn [exchanges] in Heq. injection Heq as -> Heq.
  f_equal. apply IH; [cbn in H1; lia | cbn in H2; lia | exact Heq].
Qed.

(** X2.  An input shorter than the bound, the bound being below 2^25,
    goes to the predictor in one call that carries all the rows;
    [predict] returns what numpy reads from the one reply, or raises what
    that call raised. *)
Theorem predict_small_input (data : list Row) (rows : Z) (st0 : state) :
  (Z.of_nat (List.length data) < rows < 2 ^ 25)%Z ->
  (forall w body,
      invoke (world st0) data = (w, inr body) ->
      predict invoke fromstr data rows st0
      = (Ok (fromstring fromstr body ","),
         mkState w (trace st0 ++ [Request data; Response body])%list))
  /\ (forall w e,
      invoke (world st0) data = (w, inl e) ->
      predict invoke fromstr data rows st0
      = (Raise (Remote e),
         mkState w (trace st0 ++ [Request data; Fault e])%list)).
Proof.
  intros Hsmall.
  pose proof (split_step_small (E:=E) data rows Hsmall) as Hsplit.
  split; intros w r Hinv;
    rewrite (predict_after_split invoke fromstr _ _ _ _ Hsplit); unfold bind.
  - rewrite (for_loop_cons_ok invoke data [] "" st0 _ _
               (xgb_predictor_predict_ok invoke data st0 w r Hinv)).
    reflexivity.
  - rewrite (for_loop_cons_fault invoke data [] "" st0 _ _
               (xgb_predictor_predict_fault invoke data st0 w r Hinv)).
    reflexivity.
Qed.

(** X3.  With a negative bound above -2^25 and at least one and fewer
    than 2^25 rows, [predict] raises [ValueError] (numpy refuses the
    section count) and issues no request: the state is as before. *)
Theorem predict_negative_rows (data : list Row) (rows : Z) (st0 : state) :
  (- 2 ^ 25 < rows < 0)%Z -> data <> [] ->
  (Z.of_nat (List.length data) < 2 ^ 25)%Z ->
  predict invoke fromstr data rows st0 = (Raise ValueError, st0).
Proof.
  intros Hrows Hdata Hn. apply predict_split_raises. unfold split_step.
  destruct (n_sections_negative (E:=E) data rows Hrows Hn)
    as (k & Hk & _ & Hle).
  rewrite Hk. apply array_split_nonpositive, Hle, Hdata.
Qed.

Lemma concat_firstn_prefix (k : nat) (chunks : list (list Row)) :
  exists rest,
    List.concat chunks = (List.concat (firstn k chunks) ++ rest)%list.
Proof.
  exists (List.concat (skipn k chunks)).
  rewrite <- concat_app, firstn_skipn. reflexivity.
Qed.

(** X5.  Whatever happens, the rows [predict] has sent make up an
    initial part of the input, each row once and in order; when
    [predict] returns they are the whole input. *)
Theorem predict_sends_rows_in_order (data : list Row) (rows : Z) (st0 : state) :
  exists t,
    trace (snd (predict invoke fromstr data rows st0)) = (trace st0 ++ t)%list
    /\ (exists rest, data = (List.concat (requests t) ++ rest)%list)
    /\ (is_ok (fst (predict invoke fromstr data rows st0)) = true ->
        List.concat (requests t) = data).
Proof.
  destruct (predict_trace invoke fromstr data rows st0)
    as (t & Htrace & _ & Hraise & Hreq).
  exists t. split; [exact Htrace|].
  destruct (split_step (E:=E) data rows) as [chunks|e] eqn:Hsplit.
  - destruct (Hreq chunks eq_refl) as (k & Hk & _ & _ & Hok).
    pose proof (split_step_concat data rows chunks Hsplit) as Hcat.
    rewrite Hk. split.
    + rewrite <- Hcat. apply concat_firstn_prefix.
    + intros H. rewrite (Hok H), firstn_all. exact Hcat.
  - rewrite (Hraise e eq_refl). split; [exists data; reflexivity|].
    rewrite (predict_split_raises invoke fromstr _ _ _ _ Hsplit).
    discriminate.
Qed.

(** X6.  What [predict] returns is what numpy reads from the replies
    joined by commas, in the order of the chunks: where one reply ends and
    the next begins leaves no mark in the result. *)
Theorem predict_returns_parse_of_replies
        (data : list Row) (rows : Z) (st0 st' : state) (scores : list Score) :
  predict invoke fromstr data rows st0 = (Ok scores, st') ->
  exists chunks bodies,
    split_step (E:=E) data rows = Ok chunks
    /\ List.length bodies = List.length chunks
    /\ trace st' = (trace st0 ++ exchanges chunks bodies)%list
    /\ scores = fromstring fromstr (join "," bodies) ",".
Proof.
  intros Hrun.
  destruct (predict_ok_inv data rows st0 st' scores Hrun)
    as (chunks & bodies & Hsplit & Hlen & Hne & Htrace & Hscores).
  exists chunks, bodies. repeat (split; [assumption|]).
  destruct bodies as [|b bodies]; [congruence|].
  rewrite Hscores, tail_accumulated. reflexivity.
Qed.

End Runs.

Import Examples Instances.

Lemma predict_small_input_witness :
  (Z.of_nat (List.length [1; 2; 3]) < 500 < 2 ^ 25)%Z
  /\ predict (csv_client scoring_endpoint) read_bit [1; 2; 3] 500 (idle (tt, []))
     = (Ok (fromstring read_bit "1,0,1" ","),
        mkState (tt, [[1; 2; 3]]) [Request [1; 2; 3]; Response "1,0,1"]).
Proof.
  assert (Hsmall : (Z.of_nat (List.length [1; 2; 3]) < 500 < 2 ^ 25)%Z)
    by (split; reflexivity).
  split; [exact Hsmall|].
  apply (predict_small_input (csv_client scoring_endpoint) read_bit
           [1; 2; 3] 500 (idle (tt, [])) Hsmall).
  reflexivity.
Defined.

Lemma predict_negative_rows_witness :
  (- 2 ^ 25 < -2 < 0)%Z /\ [1; 2; 3] <> []
  /\ (Z.of_nat (List.length [1; 2; 3]) < 2 ^ 25)%Z
  /\ predict (csv_client scoring_endpoint) read_bit [1; 2; 3] (-2) (idle (tt, []))
     = (Raise ValueError, idle (tt, [])).
Proof.
  assert (Hrows : (- 2 ^ 25 < -2 < 0)%Z) by (split; reflexivity).
  assert (Hne : [1; 2; 3] <> []) by discriminate.
  assert (Hn : (Z.of_nat (List.length [1; 2; 3]) < 2 ^ 25)%Z) by reflexivity.
  split; [exact Hrows|]. split; [exact Hne|]. split; [exact Hn|].
  exact (predict_negative_rows (csv_client scoring_endpoint) read_bit
           [1; 2; 3] (-2) (idle (tt, [])) Hrows Hne Hn).
Defined.

Lemma predict_returns_parse_of_replies_witness :
  predict scoring_endpoint read_bit [1; 2; 3; 4; 5] 2 (idle tt)
  = (Ok [true; false; true; false; true],
     mkState tt [Request [1; 2]; Response "1,0";
                 Request [3; 4]; Response "1,0";
                 Request [5]; Response "1"])
  /\ exists chunks bodies,
       split_step (E:=string) [1; 2; 3; 4; 5] 2 = Ok chunks
       /\ List.length bodies = List.length chunks
       /\ [Request [1; 2]; Response "1,0";
           Request [3; 4]; Response "1,0";
           Request [5]; Response "1"]
          = exchanges (E:=string) chunks bodies
       /\ [true; false; true; false; true]
          = fromstring read_bit (join "," bodies) ",".
Proof.
  split; [reflexivity|].
  apply (predict_returns_parse_of_replies scoring_endpoint read_bit
           [1; 2; 3; 4; 5] 2 (idle tt)
           (mkState tt [Request [1; 2]; Response "1,0";
                        Request [3; 4]; Response "1,0";
                        Request [5]; Response "1"])
           [true; false; true; false; true]).
  reflexivity.
Defined.

End MoreRunFacts.

(* ================================================================== *)
(** * More on the confusion matrix *)
(* ================================================================== *)

Module MoreTabulationFacts.
Import Python Numpy Pandas Churn TabulationFacts.

(** The cells of one row count the pairs whose first value is the row
    label. *)
Lemma row_cells_sum (r : Z) (cs : list Z) (pairs : list (Z * Z)) :
  NoDup cs ->
  Forall (fun p => In (snd p) cs) pairs ->
  list_sum (map (fun c => count_pairs r c pairs) cs)
  = List.length (filter (fun p => (fst p =? r)%Z) pairs).
Proof.
  intros Hcs Hall. induction Hall as [|p pairs Hp Hall IH].
  - cbn [filter List.length]. apply list_sum_map_zero.
  - rewrite (map_ext _ (fun c =>
       (if (fst p =? r)%Z && (snd p =? c)%Z then 1 else 0)
       + count_pairs r c pairs)) by (intros c; apply count_pairs_cons).
    rewrite list_sum_map_add, IH. cbn [filter].
    destruct (fst p =? r)%Z; cbn [andb List.length].
    + rewrite one_label_matches by assumption. reflexivity.
    + rewrite list_sum_map_zero. reflexivity.
Qed.

Lemma filter_dropna_count (r : Z) (index : list (option Z)) (columns : list Z) :
  List.length index = List.length columns ->
  List.length (filter (fun p => (fst p =? r)%Z) (dropna index columns))
  = count_occ label_eq_dec index (Some r).
Proof.
  revert columns. induction index as [|[x|] index IH]; intros [|y columns] Hlen;
    try discriminate; [reflexivity | |].
  - cbn [dropna filter fst count_occ].
    destruct (label_eq_dec (Some x) (Some r)) as [Heq|Hneq].
    + injection Heq as ->. rewrite Z.eqb_refl. cbn [List.length].
      rewrite IH by (cbn in Hlen; lia). reflexivity.
    + destruct (Z.eqb_spec x r) as [->|_]; [congruence|].
      apply IH. cbn in Hlen. lia.
  - cbn [dropna count_occ].
    destruct (label_eq_dec None (Some r)) as [Heq|_]; [discriminate|].
    apply IH. cbn in Hlen. lia.
Qed.

Lemma in_dropna_fst (r : Z) (index : list (option Z)) (columns : list Z) :
  List.length index = List.length columns ->
  In r (map fst (dropna index columns)) <-> In (Some r) index.
Proof.
  revert columns. induction index as [|[x|] index IH]; intros [|y columns] Hlen;
    try discriminate; [reflexivity | |]; cbn [dropna map fst In];
    rewrite IH by (cbn in Hlen; lia).
  - split; intros [H|H]; auto; left; congruence.
  - split; [auto | intros [H|H]; [discriminate | exact H]].
Qed.

(** The predicted labels that take part are the labels of the scores of
    the rows whose true label is there. *)
Lemma dropna_predicted_labels (labels : list (option Z)) (predictions : list float) :
  map snd (dropna labels (predicted_labels predictions))
  = predicted_labels
      (map snd (filter (fun p => notna (fst p)) (combine labels predictions))).
Proof.
  revert predictions.
  induction labels as [|[x|] labels IH]; intros [|s predictions];
    try reflexivity.
  - change (predicted_labels (s :: predictions))
      with ((if PrimFloat.ltb THRESHOLD s then 1%Z else 0%Z)
              :: predicted_labels predictions).
    cbn [dropna map snd combine filter fst notna].
    rewrite IH. reflexivity.
  - change (predicted_labels (s :: predictions))
      with ((if PrimFloat.ltb THRESHOLD s then 1%Z else 0%Z)
              :: predicted_labels predictions).
    cbn [dropna combine filter fst notna]. apply IH.
Qed.

(** X8.  In the confusion matrix there is one row for each true label
    that occurs, in ascending order, and the cells of a row add up to the
    number of test rows with that true label. *)
Theorem confusion_matrix_row_sums {E} (labels : list (option Z))
        (predictions : list float) :
  List.length predictions = List.length labels ->
  exists table,
    confusion_matrix (E:=E) labels predictions = Ok table
    /\ StronglySorted Z.lt (index_labels table)
    /\ (forall r, In r (index_labels table) <-> In (Some r) labels)
    /\ map list_sum (cells table)
       = map (fun r => count_occ label_eq_dec labels (Some r))
             (index_labels table).
Proof.
  intros Hlen. unfold confusion_matrix, crosstab.
  rewrite length_predicted_labels, Hlen, Nat.eqb_refl.
  eexists. split; [reflexivity|].
  cbn [index_labels cells].
  assert (Hlen' : List.length labels = List.length (predicted_labels predictions))
    by (rewrite length_predicted_labels; lia).
  split; [apply unique_sorted_sorted|].
  split; [intros r; rewrite in_unique_sorted; apply in_dropna_fst, Hlen'|].
  rewrite map_map. apply map_ext. intros r.
  rewrite row_cells_sum.
  - apply filter_dropna_count, Hlen'.
  - apply unique_sorted_nodup.
  - eapply Forall_impl; [|apply in_pairs_both].
    intros p [_ Hb]. apply in_unique_sorted, Hb.
Qed.

(** X9.  The confusion matrix has a column for the predicted label 1
    exactly when some test row whose true label is there has a score above
    the threshold, and a column for the label 0 exactly when some such row
    has a score that is not; with these scores all on one side it has a
    single column. *)
Theorem confusion_matrix_columns {E} (labels : list (option Z))
        (predictions : list float) :
  List.length predictions = List.length labels ->
  let kept := map snd (filter (fun p => notna (fst p))
                              (combine labels predictions)) in
  exists table,
    confusion_matrix (E:=E) labels predictions = Ok table
    /\ column_labels table
       = (if existsb (fun s => negb (PrimFloat.ltb THRESHOLD s)) kept
          then [0%Z] else [])
         ++ (if existsb (fun s => PrimFloat.ltb THRESHOLD s) kept
             then [1%Z] else []).
Proof.
  intros Hlen kept. unfold confusion_matrix, crosstab.
  rewrite length_predicted_labels, Hlen, Nat.eqb_refl.
  eexists. split; [reflexivity|].
  cbn [column_labels]. rewrite dropna_predicted_labels. fold kept.
  clear Hlen. generalize kept. clear kept. intros kept.
  unfold predicted_labels, np_where, gt. rewrite map_map.
  induction kept as [|s kept IH]; [reflexivity|].
  cbn [map unique_sorted fold_right existsb].
  fold (unique_sorted
          (map (fun x => if PrimFloat.ltb THRESHOLD x then 1%Z else 0%Z)
               kept)).
  rewrite IH.
  destruct (PrimFloat.ltb THRESHOLD s);
    destruct (existsb (fun s => negb (PrimFloat.ltb THRESHOLD s)) kept);
    destruct (existsb (fun s => PrimFloat.ltb THRESHOLD s) kept);
    reflexivity.
Qed.

Lemma confusion_matrix_row_sums_witness :
  List.length [0.25; 0.75; 0.125; 0.5; 0.875]%float
  = List.length [Some 0; None; Some 1; Some 0; Some 1]%Z
  /\ exists table,
       confusion_matrix (E:=unit)
         [Some 0; None; Some 1; Some 0; Some 1]%Z
         [0.25; 0.75; 0.125; 0.5; 0.875]%float = Ok table
       /\ map list_sum (cells table) = [2; 2].
Proof.
  split; [reflexivity|].
  destruct (confusion_matrix_row_sums (E:=unit)
              [Some 0; None; Some 1; Some 0; Some 1]%Z
              [0.25; 0.75; 0.125; 0.5; 0.875]%float eq_refl)
    as (table & Htable & _ & _ & Hsums).
  exists table. split; [exact Htable|].
  rewrite Hsums. injection Htable as <-. reflexivity.
Defined.

(** The one score above the threshold belongs to a row without a true
    label: the matrix has the column 0 only. *)
Lemma confusion_matrix_columns_witness :
  List.length [0.5; 0.125]%float = List.length [None; Some 1%Z]
  /\ exists table,
       confusion_matrix (E:=unit) [None; Some 1%Z] [0.5; 0.125]%float
       = Ok table
       /\ column_labels table = [0%Z].
Proof.
  split; [reflexivity|].
  destruct (confusion_matrix_columns (E:=unit)
              [None; Some 1%Z] [0.5; 0.125]%float eq_refl)
    as (table & Htable & Hcols).
  exists table. split; [exact Htable | exact Hcols].
Defined.

End MoreTabulationFacts.

(* ================================================================== *)
(** * More on the best trial *)
(* ================================================================== *)

Module MoreExperimentFacts.
Import Python Experiments ExperimentFacts.

Section Row0.
Context {E : Type}.
Variable search : list TrialComponent -> list TrialComponent.

Hypothesis search_permutation :
  forall store, Permutation (search store) store.

(** X11.  When the search finds at least one trial component, loading
    the component named in row 0 never fails with an unknown name: it
    yields a stored component of that name. *)
Theorem best_trial_component_loads (store : list TrialComponent) :
  store <> [] ->
  exists row best,
    iloc (E:=E) (dataframe search store) 0 = Ok row
    /\ best_trial_component (E:=E) search store = Ok best
    /\ In best store
    /\ TrialComponentName best = TrialComponentName row.
Proof.
  intros Hne.
  pose proof (search_permutation store) as Hperm.
  unfold best_trial_component, dataframe, iloc, load.
  destruct (search store) as [|b l] eqn:Hsearch.
  - apply Permutation_nil in Hperm. congruence.
  - assert (Hin : In b store)
      by (eapply Permutation_in; [exact Hperm | left; reflexivity]).
    cbn [nth_error].
    destruct (find (fun t => String.eqb (TrialComponentName t)
                                        (TrialComponentName b)) store)
      as [t|] eqn:Hfind.
    + exists b, t. apply find_some in Hfind as [Ht Hname].
      apply String.eqb_eq in Hname. repeat split; assumption.
    + exfalso. pose proof (find_none _ _ Hfind b Hin) as Hb.
      cbn in Hb. rewrite String.eqb_refl in Hb. discriminate.
Qed.

End Row0.

Lemma best_trial_component_loads_witness :
  [mkTrialComponent "a" (Qmake 1 2); mkTrialComponent "b" (Qmake 3 4)] <> []
  /\ exists row best,
       iloc (E:=unit)
         (dataframe sort_descending
            [mkTrialComponent "a" (Qmake 1 2); mkTrialComponent "b" (Qmake 3 4)])
         0 = Ok row
       /\ best_trial_component (E:=unit) sort_descending
            [mkTrialComponent "a" (Qmake 1 2); mkTrialComponent "b" (Qmake 3 4)]
          = Ok best
       /\ TrialComponentName best = TrialComponentName row.
Proof.
  assert (Hne : [mkTrialComponent "a" (Qmake 1 2);
                 mkTrialComponent "b" (Qmake 3 4)] <> []) by discriminate.
  split; [exact Hne|].
  destruct (best_trial_component_loads (E:=unit) sort_descending
              sort_descending_permutation _ Hne)
    as (row & best & Hrow & Hbest & _ & Hname).
  exists row, best. repeat split; assumption.
Defined.

End MoreExperimentFacts.

(* ================================================================== *)
(** * The sweep over hidden channels *)
(* ================================================================== *)

Module SweepFacts.
Import Python Sweep.
Local Open Scope string_scope.

(** ** Names *)

Lemma append_inj_l (p a b : string) : p ++ a = p ++ b -> a = b.
Proof.
  induction p as [|c p IH]; cbn; intros H; [exact H|].
  injection H as H. apply IH, H.
Qed.

(** Written digits end where a dash stands. *)
Lemma digits_dash_inj (d1 d2 : Decimal.uint) (r1 r2 : string) :
  NilEmpty.string_of_uint d1 ++ String "-" r1
  = NilEmpty.string_of_uint d2 ++ String "-" r2 ->
  d1 = d2 /\ r1 = r2.
Proof.
  revert d2. induction d1 as [|d1 IH|d1 IH|d1 IH|d1 IH|d1 IH|d1 IH|d1 IH|d1 IH|d1 IH|d1 IH];
    intros [|d2|d2|d2|d2|d2|d2|d2|d2|d2|d2]; cbn; intros H;
    try discriminate H;
    injection H as H;
    try (split; [reflexivity | exact H]);
    apply IH in H; destruct H as [-> ->]; split; reflexivity.
Qed.

Lemma to_int_shape (z : Z) :
  exists u, u <> Decimal.Nil
            /\ (Z.to_int z = Decimal.Pos u \/ Z.to_int z = Decimal.Neg u).
Proof.
  destruct z as [|p|p]; cbn [Z.to_int].
  - exists Decimal.zero. split; [discriminate | left; reflexivity].
  - exists (Pos.to_uint p).
    split; [apply DecimalPos.Unsigned.to_uint_nonnil | left; reflexivity].
  - exists (Pos.to_uint p).
    split; [apply DecimalPos.Unsigned.to_uint_nonnil | right; reflexivity].
Qed.

Lemma to_int_inj (a b : Z) : Z.to_int a = Z.to_int b -> a = b.
Proof.
  intros H. rewrite <- (DecimalZ.of_to a), <- (DecimalZ.of_to b), H.
  reflexivity.
Qed.

Lemma string_of_uint_nonnil (u : Decimal.uint) :
  u <> Decimal.Nil ->
  NilZero.string_of_uint u = NilEmpty.string_of_uint u.
Proof. destruct u; [congruence | reflexivity ..]. Qed.

Lemma digit_first (u : Decimal.uint) (r s : string) :
  u <> Decimal.Nil ->
  NilEmpty.string_of_uint u ++ r <> String "-" s.
Proof. destruct u; [congruence | cbn; discriminate ..]. Qed.

(** A written integer ends where a dash stands. *)
Lemma str_int_dash_inj (a b : Z) (r1 r2 : string) :
  str_int a ++ String "-" r1 = str_int b ++ String "-" r2 ->
  a = b /\ r1 = r2.
Proof.
  unfold str_int.
  destruct (to_int_shape a) as (ua & Hua & [Ha|Ha]);
    destruct (to_int_shape b) as (ub & Hub & [Hb|Hb]);
    rewrite Ha, Hb; cbn [NilZero.string_of_int];
    rewrite !string_of_uint_nonnil by assumption; intros H.
  - apply digits_dash_inj in H as [-> ->].
    split; [apply to_int_inj; congruence | reflexivity].
  - exfalso. exact (digit_first ua _ _ Hua H).
  - exfalso. symmetry in H. exact (digit_first ub _ _ Hub H).
  - cbn in H. injection H as H. apply digits_dash_inj in H as [-> ->].
    split; [apply to_int_inj; congruence | reflexivity].
Qed.

Lemma str_int_inj (a b : Z) : str_int a = str_int b -> a = b.
Proof.
  intros H.
  assert (H' : str_int a ++ String "-" "" = str_int b ++ String "-" "")
    by (rewrite H; reflexivity).
  apply str_int_dash_inj in H'. apply H'.
Qed.

(** X12.  The names are told apart by what they are made from: two
    trial names are equal only for the same number of hidden channels and
    the same clock reading, and two training job names only for the same
    clock reading. *)
Theorem names_injective (h1 h2 t1 t2 : Z) :
  (trial_name_of h1 t1 = trial_name_of h2 t2 <-> h1 = h2 /\ t1 = t2)
  /\ (job_name_of t1 = job_name_of t2 <-> t1 = t2).
Proof.
  split; split.
  - unfold trial_name_of. intros H.
    apply append_inj_l in H.
    change ("-hidden-channels-" ++ str_int t1)
      with (String "-" ("hidden-channels-" ++ str_int t1)) in H.
    change ("-hidden-channels-" ++ str_int t2)
      with (String "-" ("hidden-channels-" ++ str_int t2)) in H.
    apply str_int_dash_inj in H as [-> H].
    apply append_inj_l, str_int_inj in H. split; [reflexivity | exact H].
  - intros [-> ->]. reflexivity.
  - unfold job_name_of. intros H. apply append_inj_l, str_int_inj in H. exact H.
  - intros ->. reflexivity.
Qed.

Example trial_name_of_two :
  trial_name_of 2 1598304376 = "cnn-training-job-2-hidden-channels-1598304376".
Proof. reflexivity. Qed.

(** ** The dict *)

Lemma dict_get_set_same (k : Z) (v : string) (d : list (Z * string)) :
  dict_get k (dict_set k v d) = Some v.
Proof.
  induction d as [|[k' v'] d IH]; cbn [dict_set dict_get].
  - rewrite Z.eqb_refl. reflexivity.
  - destruct (Z.eqb_spec k k') as [->|Hne]; cbn [dict_get].
    + rewrite Z.eqb_refl. reflexivity.
    + rewrite (proj2 (Z.eqb_neq k k') Hne). exact IH.
Qed.

Lemma dict_get_set_other (k k0 : Z) (v : string) (d : list (Z * string)) :
  k <> k0 -> dict_get k (dict_set k0 v d) = dict_get k d.
Proof.
  intros Hne. induction d as [|[k' v'] d IH]; cbn [dict_set dict_get].
  - rewrite (proj2 (Z.eqb_neq k k0) Hne). reflexivity.
  - destruct (Z.eqb_spec k0 k') as [->|Hne']; cbn [dict_get].
    + rewrite (proj2 (Z.eqb_neq k k') Hne). reflexivity.
    + destruct (k =? k')%Z; [reflexivity | exact IH].
Qed.

(** ** Runs *)

Section Runs.
Context {World E : Type}.
Variable sagemaker : World -> call -> World * (E + unit).
Variable time_time : World -> World * Z.
Variable time_sleep : World -> Z -> World.

(** One turn of the loop creates the trial, or stops there; writes the
    map entry and adds the preprocessing component, or stops there; starts
    the training job, or stops there; and sleeps. *)
Lemma iteration_cases (h : Z) (st : state (World:=World)) :
  exists t,
    let name := trial_name_of h t in
    (exists e st',
        Sweep.iteration sagemaker time_time time_sleep h st = (Raise (Remote e), st')
        /\ calls st' = (calls st ++ [TrialCreate name])%list
        /\ hidden_channel_trial_name_map st' = hidden_channel_trial_name_map st)
    \/ (exists e st',
        Sweep.iteration sagemaker time_time time_sleep h st = (Raise (Remote e), st')
        /\ calls st' = (calls st ++ [TrialCreate name; AddTrialComponent name])%list
        /\ hidden_channel_trial_name_map st'
           = dict_set h name (hidden_channel_trial_name_map st))
    \/ (exists e t' st',
        Sweep.iteration sagemaker time_time time_sleep h st = (Raise (Remote e), st')
        /\ calls st'
           = (calls st ++ [TrialCreate name; AddTrialComponent name;
                           Fit (job_name_of t') name h])%list
        /\ hidden_channel_trial_name_map st'
           = dict_set h name (hidden_channel_trial_name_map st))
    \/ (exists t' st',
        Sweep.iteration sagemaker time_time time_sleep h st = (Ok tt, st')
        /\ calls st'
           = (calls st ++ [TrialCreate name; AddTrialComponent name;
                           Fit (job_name_of t') name h])%list
        /\ hidden_channel_trial_name_map st'
           = dict_set h name (hidden_channel_trial_name_map st)).
Proof.
  unfold Sweep.iteration, bind, now, api, assign, sleep.
  destruct (time_time (world st)) as [w1 t] eqn:Ht. exists t.
  cbn [world calls hidden_channel_trial_name_map].
  destruct (sagemaker w1 (TrialCreate (trial_name_of h t))) as [w2 [e|[]]];
    cbn [world calls hidden_channel_trial_name_map].
  { left. exists e. eexists. repeat split. }
  destruct (sagemaker w2 (AddTrialComponent (trial_name_of h t))) as [w3 [e|[]]];
    cbn [world calls hidden_channel_trial_name_map].
  { right; left. exists e. eexists. split; [reflexivity|].
    cbn [calls hidden_channel_trial_name_map]. rewrite <- app_assoc.
    split; reflexivity. }
  destruct (time_time w3) as [w4 t'] eqn:Ht'.
  cbn [world calls hidden_channel_trial_name_map].
  destruct (sagemaker w4 (Fit (job_name_of t') (trial_name_of h t) h))
    as [w5 [e|[]]]; cbn [world calls hidden_channel_trial_name_map].
  { right; right; left. exists e, t'. eexists. split; [reflexivity|].
    cbn [calls hidden_channel_trial_name_map]. rewrite <- !app_assoc.
    split; reflexivity. }
  right; right; right. exists t'. eexists. split; [reflexivity|].
  cbn [calls hidden_channel_trial_name_map]. rewrite <- !app_assoc.
  split; reflexivity.
Qed.

(** What one turn does to the map and to the list of calls, whatever
    its outcome. *)
Lemma iteration_effect (h : Z) (st : state (World:=World)) :
  exists t new,
    calls (snd (Sweep.iteration sagemaker time_time time_sleep h st)) = (calls st ++ new)%list
    /\ (hidden_channel_trial_name_map (snd (Sweep.iteration sagemaker time_time time_sleep h st))
        = hidden_channel_trial_name_map st
        \/ hidden_channel_trial_name_map (snd (Sweep.iteration sagemaker time_time time_sleep h st))
           = dict_set h (trial_name_of h t) (hidden_channel_trial_name_map st))
    /\ (forall j n h', In (Fit j n h') new ->
          h' = h /\ n = trial_name_of h t /\ In (TrialCreate n) new
          /\ exists t', j = job_name_of t')
    /\ (fst (Sweep.iteration sagemaker time_time time_sleep h st) = Ok tt ->
        hidden_channel_trial_name_map (snd (Sweep.iteration sagemaker time_time time_sleep h st))
        = dict_set h (trial_name_of h t) (hidden_channel_trial_name_map st)
        /\ In (TrialCreate (trial_name_of h t)) new
        /\ exists t', In (Fit (job_name_of t') (trial_name_of h t) h) new).
Proof.
  destruct (iteration_cases h st)
    as (t & [(e & st' & Hrun & Hcalls & Hmap)
            |[(e & st' & Hrun & Hcalls & Hmap)
             |[(e & t' & st' & Hrun & Hcalls & Hmap)
              |(t' & st' & Hrun & Hcalls & Hmap)]]]);
    exists t; eexists; rewrite Hrun; cbn [fst snd];
    (split; [exact Hcalls|]); (split; [auto|]).
  - split; [|discriminate].
    intros j n h' [H|[]]. discriminate H.
  - split; [|discriminate].
    intros j n h' [H|[H|[]]]; discriminate H.
  - split; [|discriminate].
    intros j n h' [H|[H|[H|[]]]]; try discriminate H.
    injection H as <- <- <-.
    split; [reflexivity|]. split; [reflexivity|].
    split; [left; reflexivity | exists t'; reflexivity].
  - split.
    + intros j n h' [H|[H|[H|[]]]]; try discriminate H.
      injection H as <- <- <-.
      split; [reflexivity|]. split; [reflexivity|].
      split; [left; reflexivity | exists t'; reflexivity].
    + intros _. split; [exact Hmap|]. split; [left; reflexivity|].
      exists t'. right; right; left. reflexivity.
Qed.

Lemma sweep_cons (h : Z) (rest : list Z) (st : state (World:=World)) :
  Sweep.sweep sagemaker time_time time_sleep (h :: rest) st
  = match Sweep.iteration sagemaker time_time time_sleep h st with
    | (Ok _, st') => Sweep.sweep sagemaker time_time time_sleep rest st'
    | (Raise e, st') => (Raise e, st')
    end.
Proof. reflexivity. Qed.

(** The sweep leaves alone the entries of keys it does not run over. *)
Lemma sweep_other_keys (channels : list Z) (st : state (World:=World)) (k : Z) :
  ~ In k channels ->
  dict_get k (hidden_channel_trial_name_map (snd (Sweep.sweep sagemaker time_time time_sleep channels st)))
  = dict_get k (hidden_channel_trial_name_map st).
Proof.
  revert st. induction channels as [|h rest IH]; intros st Hk; [reflexivity|].
  rewrite sweep_cons.
  destruct (iteration_effect h st) as (t & new & _ & Hmap & _).
  assert (Hh : dict_get k (hidden_channel_trial_name_map (snd (Sweep.iteration sagemaker time_time time_sleep h st)))
               = dict_get k (hidden_channel_trial_name_map st)).
  { destruct Hmap as [-> | ->]; [reflexivity|].
    apply dict_get_set_other. intros ->. apply Hk. left. reflexivity. }
  destruct (Sweep.iteration sagemaker time_time time_sleep h st) as [[[]|e] st1]; cbn [snd] in *.
  - rewrite IH by (intros H; apply Hk; right; exact H). exact Hh.
  - exact Hh.
Qed.

(** X13.  In every run of the sweep, each training job is started
    under a trial that the sweep has created, that is named after the
    job's own number of hidden channels, and that number is one the sweep
    runs over. *)
Theorem sweep_jobs_filed_under_own_trial
        (channels : list Z) (st0 : state (World:=World)) :
  exists new,
    calls (snd (Sweep.sweep sagemaker time_time time_sleep channels st0)) = (calls st0 ++ new)%list
    /\ forall j n h,
         In (Fit j n h) new ->
         In h channels
         /\ In (TrialCreate n) new
         /\ exists t t', n = trial_name_of h t /\ j = job_name_of t'.
Proof.
  revert st0. induction channels as [|h0 rest IH]; intros st0.
  - exists []. cbn. rewrite app_nil_r. split; [reflexivity | contradiction].
  - rewrite sweep_cons.
    destruct (iteration_effect h0 st0) as (t & new0 & Hcalls & _ & Hfit & _).
    assert (Hfit0 : forall j n h, In (Fit j n h) new0 ->
              In h (h0 :: rest) /\ In (TrialCreate n) new0
              /\ exists t t', n = trial_name_of h t /\ j = job_name_of t').
    { intros j n h Hin. destruct (Hfit j n h Hin) as (-> & -> & Hc & t' & ->).
      split; [left; reflexivity|]. split; [exact Hc|].
      exists t, t'. split; reflexivity. }
    destruct (Sweep.iteration sagemaker time_time time_sleep h0 st0) as [[[]|e] st1]; cbn [snd] in *.
    + destruct (IH st1) as (new1 & Hcalls1 & Hfit1).
      exists (new0 ++ new1)%list.
      split; [rewrite Hcalls1, Hcalls, app_assoc; reflexivity|].
      intros j n h Hin. apply in_app_or in Hin as [Hin|Hin].
      * destruct (Hfit0 j n h Hin) as (Hh & Hc & Hn).
        split; [exact Hh|]. split; [apply in_or_app; left; exact Hc | exact Hn].
      * destruct (Hfit1 j n h Hin) as (Hh & Hc & Hn).
        split; [right; exact Hh|].
        split; [apply in_or_app; right; exact Hc | exact Hn].
    + exists new0. split; [exact Hcalls | exact Hfit0].
Qed.

(** X14.  When the sweep runs to its end, the map has an entry for
    every number of hidden channels it ran over, and the entry names a
    trial that the sweep created and under which it started a training job
    with that number of hidden channels; so a later lookup of such a key
    does not fail. *)
Theorem sweep_map_names_trained_trials
        (channels : list Z) (st0 st' : state (World:=World)) :
  Sweep.sweep sagemaker time_time time_sleep channels st0 = (Ok tt, st') ->
  exists new,
    calls st' = (calls st0 ++ new)%list
    /\ forall h,
         In h channels ->
         exists t t',
           dict_get h (hidden_channel_trial_name_map st')
           = Some (trial_name_of h t)
           /\ In (TrialCreate (trial_name_of h t)) new
           /\ In (Fit (job_name_of t') (trial_name_of h t) h) new.
Proof.
  revert st0. induction channels as [|h0 rest IH]; intros st0 Hrun.
  - injection Hrun as <-. exists []. rewrite app_nil_r.
    split; [reflexivity | contradiction].
  - rewrite sweep_cons in Hrun.
    destruct (iteration_effect h0 st0) as (t & new0 & Hcalls & _ & _ & Hok).
    destruct (Sweep.iteration sagemaker time_time time_sleep h0 st0) as [[[]|e] st1]; cbn [fst snd] in *;
      [|discriminate].
    destruct (Hok eq_refl) as (Hmap & Hc & t' & Hf).
    destruct (IH st1 Hrun) as (new1 & Hcalls1 & Hentries).
    exists (new0 ++ new1)%list.
    split; [rewrite Hcalls1, Hcalls, app_assoc; reflexivity|].
    intros h Hin.
    destruct (in_dec Z.eq_dec h rest) as [Hrest|Hrest].
    + destruct (Hentries h Hrest) as (th & th' & Hget & Hcreate & Hfit).
      exists th, th'. split; [exact Hget|].
      split; apply in_or_app; right; assumption.
    + destruct Hin as [<-|Hin]; [|contradiction].
      exists t, t'.
      pose proof (sweep_other_keys rest st1 h0 Hrest) as Hkeep.
      rewrite Hrun in Hkeep. cbn [snd] in Hkeep.
      rewrite Hkeep, Hmap, dict_get_set_same.
      split; [reflexivity|]. split; apply in_or_app; left; assumption.
Qed.

(** X15.  When a call to the platform raises in the turn for [h], the
    sweep raises the same exception at once and makes no further call,
    none for the channels after [h].  The map has the entry for [h] as
    soon as the trial was created: it is there when adding the
    preprocessing component or starting the training job failed, and it is
    not when creating the trial failed. *)
Theorem sweep_stops_at_failure
        (pre post : list Z) (h : Z) (st0 st1 st2 : state (World:=World))
        (e : exn E) :
  Sweep.sweep sagemaker time_time time_sleep pre st0 = (Ok tt, st1) ->
  Sweep.iteration sagemaker time_time time_sleep h st1 = (Raise e, st2) ->
  Sweep.sweep sagemaker time_time time_sleep (pre ++ h :: post) st0 = (Raise e, st2)
  /\ exists t,
       let name := trial_name_of h t in
       (calls st2 = (calls st1 ++ [TrialCreate name])%list
        /\ hidden_channel_trial_name_map st2 = hidden_channel_trial_name_map st1)
       \/ ((calls st2 = (calls st1 ++ [TrialCreate name; AddTrialComponent name])%list
            \/ exists t',
                 calls st2
                 = (calls st1 ++ [TrialCreate name; AddTrialComponent name;
                                  Fit (job_name_of t') name h])%list)
           /\ dict_get h (hidden_channel_trial_name_map st2) = Some name).
Proof.
  intros Hpre Hiter. split.
  - revert st0 Hpre. induction pre as [|h0 pre IH]; intros st0 Hpre.
    + injection Hpre as ->. cbn [app]. rewrite sweep_cons, Hiter. reflexivity.
    + cbn [app]. rewrite sweep_cons in Hpre |- *.
      destruct (Sweep.iteration sagemaker time_time time_sleep h0 st0) as [[[]|e0] st']; [|discriminate].
      apply IH, Hpre.
  - destruct (iteration_cases h st1)
      as (t & [(e1 & st' & Hrun & Hcalls & Hmap)
              |[(e1 & st' & Hrun & Hcalls & Hmap)
               |[(e1 & t' & st' & Hrun & Hcalls & Hmap)
                |(t' & st' & Hrun & Hcalls & Hmap)]]]);
      rewrite Hrun in Hiter; try discriminate Hiter;
      injection Hiter as _ <-; exists t; cbn zeta.
    + left. split; assumption.
    + right. split; [left; exact Hcalls|].
      rewrite Hmap. apply dict_get_set_same.
    + right. split; [right; exists t'; exact Hcalls|].
      rewrite Hmap. apply dict_get_set_same.
Qed.

End Runs.

(** The notebook's sweep on a willing platform. *)
Example sweep_of_three :
  hidden_channel_trial_name_map
    (snd (Sweep.sweep willing ticking sleeping [2; 5; 10]%Z
            (mkState 1598300000%Z [] [])))
  = [(2%Z, "cnn-training-job-2-hidden-channels-1598300000");
     (5%Z, "cnn-training-job-5-hidden-channels-1598300004");
     (10%Z, "cnn-training-job-10-hidden-channels-1598300008")].
Proof. reflexivity. Qed.

Lemma sweep_map_names_trained_trials_witness :
  Sweep.sweep willing ticking sleeping [2; 5; 10]%Z (mkState 1598300000%Z [] [])
  = (Ok tt,
     mkState 1598300012%Z
       [TrialCreate "cnn-training-job-2-hidden-channels-1598300000";
        AddTrialComponent "cnn-training-job-2-hidden-channels-1598300000";
        Fit "cnn-training-job-1598300001"
            "cnn-training-job-2-hidden-channels-1598300000" 2;
        TrialCreate "cnn-training-job-5-hidden-channels-1598300004";
        AddTrialComponent "cnn-training-job-5-hidden-channels-1598300004";
        Fit "cnn-training-job-1598300005"
            "cnn-training-job-5-hidden-channels-1598300004" 5;
        TrialCreate "cnn-training-job-10-hidden-channels-1598300008";
        AddTrialComponent "cnn-training-job-10-hidden-channels-1598300008";
        Fit "cnn-training-job-1598300009"
            "cnn-training-job-10-hidden-channels-1598300008" 10]
       [(2%Z, "cnn-training-job-2-hidden-channels-1598300000");
        (5%Z, "cnn-training-job-5-hidden-channels-1598300004");
        (10%Z, "cnn-training-job-10-hidden-channels-1598300008")])
  /\ exists t,
       dict_get 2
         [(2%Z, "cnn-training-job-2-hidden-channels-1598300000");
          (5%Z, "cnn-training-job-5-hidden-channels-1598300004");
          (10%Z, "cnn-training-job-10-hidden-channels-1598300008")]
       = Some (trial_name_of 2 t).
Proof.
  assert (Hrun :
    Sweep.sweep willing ticking sleeping [2; 5; 10]%Z (mkState 1598300000%Z [] [])
    = (Ok tt,
       mkState 1598300012%Z
         [TrialCreate "cnn-training-job-2-hidden-channels-1598300000";
          AddTrialComponent "cnn-training-job-2-hidden-channels-1598300000";
          Fit "cnn-training-job-1598300001"
              "cnn-training-job-2-hidden-channels-1598300000" 2;
          TrialCreate "cnn-training-job-5-hidden-channels-1598300004";
          AddTrialComponent "cnn-training-job-5-hidden-channels-1598300004";
          Fit "cnn-training-job-1598300005"
              "cnn-training-job-5-hidden-channels-1598300004" 5;
          TrialCreate "cnn-training-job-10-hidden-channels-1598300008";
          AddTrialComponent "cnn-training-job-10-hidden-channels-1598300008";
          Fit "cnn-training-job-1598300009"
              "cnn-training-job-10-hidden-channels-1598300008" 10]
         [(2%Z, "cnn-training-job-2-hidden-channels-1598300000");
          (5%Z, "cnn-training-job-5-hidden-channels-1598300004");
          (10%Z, "cnn-training-job-10-hidden-channels-1598300008")]))
    by (vm_compute; reflexivity).
  split; [exact Hrun|].
  destruct (sweep_map_names_trained_trials willing ticking sleeping
              [2; 5; 10]%Z _ _ Hrun) as (new & _ & Hentries).
  destruct (Hentries 2%Z (or_introl eq_refl)) as (t & t' & Hget & _).
  exists t. exact Hget.
Defined.

(** The platform refuses to train: the sweep stops in its first turn,
    and the map already names the trial of that turn. *)
Lemma sweep_stops_at_failure_witness :
  Sweep.sweep no_training ticking sleeping [2; 5; 10]%Z
    (mkState 1598300000%Z [] [])
  = (Raise (Remote "ResourceLimitExceeded"),
     mkState 1598300002%Z
       [TrialCreate "cnn-training-job-2-hidden-channels-1598300000";
        AddTrialComponent "cnn-training-job-2-hidden-channels-1598300000";
        Fit "cnn-training-job-1598300001"
            "cnn-training-job-2-hidden-channels-1598300000" 2]
       [(2%Z, "cnn-training-job-2-hidden-channels-1598300000")]).
Proof.
  assert (Hpre : Sweep.sweep no_training ticking sleeping []
                   (mkState 1598300000%Z [] [])
                 = (Ok tt, mkState 1598300000%Z [] [])) by reflexivity.
  assert (Hiter :
    Sweep.iteration no_training ticking sleeping 2 (mkState 1598300000%Z [] [])
    = (Raise (Remote "ResourceLimitExceeded"),
       mkState 1598300002%Z
         [TrialCreate "cnn-training-job-2-hidden-channels-1598300000";
          AddTrialComponent "cnn-training-job-2-hidden-channels-1598300000";
          Fit "cnn-training-job-1598300001"
              "cnn-training-job-2-hidden-channels-1598300000" 2]
         [(2%Z, "cnn-training-job-2-hidden-channels-1598300000")]))
    by (vm_compute; reflexivity).
  exact (proj1 (sweep_stops_at_failure no_training ticking sleeping
                  [] [5; 10]%Z 2%Z _ _ _ _ Hpre Hiter)).
Defined.

End SweepFacts.
